(** * orthotokenizer: grapheme trie, segmenter, profile and rules loading

    A shallow embedding of [orthotokenizer/tree.py], [orthotokenizer/util.py]
    and [orthotokenizer/tokenizer.py].

    Python unicode strings are lists of code points.  Dictionaries are
    [gmap]s.  Exceptions are values of [exn] carried by [py_result].  The
    Unicode database ([unicodedata.normalize], [unicodedata.category],
    [str.lower]) and the [regex] engine are external to the repository
    and enter as section variables. *)

From Stdlib Require Import NArith String Ascii.
From stdpp Require Import gmap list option.

Set Warnings "-register-all,-clear-no-such-hyp".
Set Default Proof Using "Type".

(** ** Python strings *)

Definition char := N.
Definition str := list char.

(** [py "abc"] is the Python literal ["abc"] (ASCII literals only). *)
Fixpoint py (s : string) : str :=
  match s with
  | EmptyString => []
  | String a s' => N_of_ascii a :: py s'
  end.

Arguments py : simpl never.

Definition c_tab : char := 9%N.
Definition c_space : char := 32%N.
Definition c_hash : char := 35%N.
Definition c_comma : char := 44%N.
Definition c_qmark : char := 63%N.

(** [ch.isspace()] for one code point: the Unicode White_Space characters
    together with the information separators U+001C..U+001F. *)
Definition isspace (c : char) : bool :=
  ((9 <=? c) && (c <=? 13) || (28 <=? c) && (c <=? 32) ||
   (c =? 133) || (c =? 160) || (c =? 5760) ||
   (8192 <=? c) && (c <=? 8202) ||
   (c =? 8232) || (c =? 8233) || (c =? 8239) || (c =? 8287) ||
   (c =? 12288))%N.

Fixpoint lstrip_with (p : char -> bool) (s : str) : str :=
  match s with
  | [] => []
  | c :: s' => if p c then lstrip_with p s' else s
  end.

Definition rstrip_with (p : char -> bool) (s : str) : str :=
  reverse (lstrip_with p (reverse s)).

(** [s.strip()], [s.lstrip(chars)], [s.rstrip(chars)]. *)
Definition strip (s : str) : str := rstrip_with isspace (lstrip_with isspace s).
Definition lstrip (chars s : str) : str := lstrip_with (fun c => bool_decide (c ∈ chars)) s.
Definition rstrip (chars s : str) : str := rstrip_with (fun c => bool_decide (c ∈ chars)) s.

(** [s.startswith(prefix)]. *)
Fixpoint startswith (s prefix : str) : bool :=
  match prefix, s with
  | [], _ => true
  | p :: prefix', c :: s' => if decide (p = c) then startswith s' prefix' else false
  | _ :: _, [] => false
  end.

(** [s.split(sep)] for a one-character separator: empty fields are kept,
    the result has one more field than [s] has separators. *)
Fixpoint split_on (sep : char) (s : str) : list str :=
  match s with
  | [] => [[]]
  | c :: s' =>
      if decide (c = sep) then [] :: split_on sep s'
      else match split_on sep s' with
           | [] => [[c]]
           | f :: fs => (c :: f) :: fs
           end
  end.

(** [s.split()]: fields are the maximal runs of non-whitespace. *)
Fixpoint split_ws_go (cur : str) (s : str) : list str :=
  match s with
  | [] => if decide (cur = []) then [] else [reverse cur]
  | c :: s' =>
      if isspace c
      then (if decide (cur = []) then [] else [reverse cur]) ++ split_ws_go [] s'
      else split_ws_go (c :: cur) s'
  end.

Definition split (s : str) : list str := split_ws_go [] s.

(** [sep.join(l)]. *)
Fixpoint join (sep : str) (l : list str) : str :=
  match l with
  | [] => []
  | [x] => x
  | x :: l' => x ++ sep ++ join sep l'
  end.

(** [s.replace(old, new)] for a non-empty [old]: occurrences are taken
    left to right and do not overlap.  [skip] counts the characters of a
    matched occurrence still to be passed over. *)
Fixpoint replace_go (old new : str) (skip : nat) (s : str) : str :=
  match s with
  | [] => []
  | c :: s' =>
      match skip with
      | S k => replace_go old new k s'
      | O => if startswith s old
             then new ++ replace_go old new (length old - 1) s'
             else c :: replace_go old new 0 s'
      end
  end.

Definition replace (old new s : str) : str := replace_go old new 0 s.

(** ** Exceptions *)

Inductive exn : Type :=
| IndexError
| KeyError
| UnpackError                       (* ValueError raised by tuple unpacking *)
| ReError                           (* raised by re.compile *)
| RulesCountMismatch                (* ValueError("[i] Number of inputs ...") *)
| DuplicateGrapheme (line_count : nat)
                                    (* Exception("You have a duplicate ... at: {0}") *)
| NoProfileError.                   (* Exception("This method only works ...") *)

Inductive py_result (A : Type) : Type :=
| Ok (a : A)
| Raise (e : exn).
Arguments Ok {A} a.
Arguments Raise {A} e.

Definition bind {A B} (r : py_result A) (k : A -> py_result B) : py_result B :=
  match r with
  | Ok a => k a
  | Raise e => Raise e
  end.

Notation "'let!' x ':=' r 'in' k" := (bind r (fun x => k))
  (at level 10, x name, r at level 100, k at level 200).

(** ** util.py *)

Section Util.

Variable NFD : str -> str.          (* unicodedata.normalize("NFD", .) *)

(** [normalized_rows(path, separator, skip_comments)] for a one-character
    [separator]; [lines] are the lines of the file at [path]. *)
Definition normalized_rows (lines : list str) (separator : char)
    (skip_comments : bool) : list (list str) :=
  omap (fun line =>
          let line := NFD (strip line) in
          if bool_decide (line ≠ []) &&
             (negb skip_comments || negb (startswith line [c_hash]))
          then Some (strip <$> split_on separator line)
          else None) lines.

(** [normalized_string(string, add_boundaries)] *)
Definition normalized_string (string : str) (add_boundaries : bool) : str :=
  NFD (if add_boundaries then replace [c_space] [c_hash] string else string).

End Util.

(** A call into the [regex] package: [None] is a raised [re.error]. *)
Definition re_call {A} (o : option A) : py_result A :=
  match o with
  | Some a => Ok a
  | None => Raise ReError
  end.

(** [l[i]] *)
Definition getitem {A} (l : list A) (i : nat) : py_result A :=
  match l !! i with
  | Some x => Ok x
  | None => Raise IndexError
  end.

(** ** tree.py *)

Module Tree.

(** class TreeNode *)
Inductive TreeNode : Type :=
  mkTreeNode { char_ : str; children : gmap char TreeNode; sentinel : bool }.

(** [TreeNode(char, sentinel)] *)
Definition new_TreeNode (c : str) (s : bool) : TreeNode := mkTreeNode c ∅ s.

(** [addMultigraph(node, line)].  The Python code mutates the nodes in
    place; here the updated node is returned. *)
Fixpoint addMultigraph (node : TreeNode) (line : str) : TreeNode :=
  match line with
  | [] => mkTreeNode (char_ node) (children node) true
  | c :: line' =>
      (* node.children.setdefault(char, TreeNode(char)) *)
      let child := default (new_TreeNode [c] false) (children node !! c) in
      mkTreeNode (char_ node)
                 (<[c := addMultigraph child line']> (children node))
                 (sentinel node)
  end.

(** The while loop of [_parse].  [self_parse] is the recursive call
    [self._parse(root, .)]; [n] bounds the number of iterations left. *)
Fixpoint _parse_while (self_parse : str -> option str) (line : str) (n : nat)
    (node : TreeNode) (curr : nat) (parse : str) : option str :=
  match n with
  | O => None
  | S n' =>
      if decide (curr < length line) then
        match line !! curr with
        | None => None
        | Some c =>
            let curr' := curr + 1 in
            match children node !! c with
            | None => Some parse                              (* break *)
            | Some node' =>
                if sentinel node' then
                  subparse ← self_parse (drop curr' line);
                  if decide (0 < length subparse)
                  then _parse_while self_parse line n' node' curr'
                         (take curr' line ++ [c_space] ++ subparse)
                  else _parse_while self_parse line n' node' curr' parse
                else _parse_while self_parse line n' node' curr' parse
            end
        end
      else Some parse
  end.

(** [Tree._parse(root, line)] with [fuel] bounding the recursion depth;
    [None] means the bound was too small. *)
Fixpoint _parse_fuel (fuel : nat) (root : TreeNode) (line : str) : option str :=
  match fuel with
  | O => None
  | S fuel' =>
      if decide (length line = 0) then Some [c_hash]
      else _parse_while (_parse_fuel fuel' root) line fuel root 0 []
  end.

(** [Tree._parse]: the recursion is on strictly shorter suffixes, so a
    bound of [len(line) + 1] is enough (lemma [_parse_fuel_enough]). *)
Definition _parse (root : TreeNode) (line : str) : str :=
  default [] (_parse_fuel (S (length line)) root line).

(** [Tree.parse(line)] *)
Definition parse (root : TreeNode) (line : str) : str :=
  let parse := _parse root line in
  if decide (parse = []) then [] else [c_hash; c_space] ++ parse.

(** The while loop of [printMultigraphs]: the value of [last] when the
    loop ends; [n] bounds the number of iterations left. *)
Fixpoint printMultigraphs_while (line : str) (n : nat) (node : TreeNode)
    (curr last : nat) : option nat :=
  match n with
  | O => None
  | S n' =>
      if decide (curr < length line) then
        match line !! curr with
        | None => None
        | Some c =>
            match children node !! c with
            | None => Some last                               (* break *)
            | Some node' =>
                let last := if sentinel node' then curr else last in
                printMultigraphs_while line n' node' (curr + 1) last
            end
        end
      else Some last
  end.

(** [printMultigraphs(root, line, result)] with [fuel] bounding the
    recursion depth; [None] means a bound was too small. *)
Fixpoint printMultigraphs_fuel (fuel : nat) (root : TreeNode) (line result : str)
    : option str :=
  match fuel with
  | O => None
  | S fuel' =>
      if decide (length line = 0) then Some (result ++ [c_hash])
      else
        last ← printMultigraphs_while line (S (length line)) root 0 0;
        let last := last + 1 in
        printMultigraphs_fuel fuel' root (drop last line)
          (result ++ take last line ++ [c_space])
  end.

(** [printMultigraphs]: every call consumes at least one character, so a
    bound of [len(line) + 1] is enough. *)
Definition printMultigraphs (root : TreeNode) (line result : str) : str :=
  default [] (printMultigraphs_fuel (S (length line)) root line result).

(** The length [last + 1] of the segment the first call of
    [printMultigraphs] cuts off a non-empty [line]. *)
Definition first_cut (root : TreeNode) (line : str) : nat :=
  default 0 (printMultigraphs_while line (S (length line)) root 0 0) + 1.

(** Following [line] from [node] one child at a time. *)
Fixpoint walk (node : TreeNode) (s : str) : option TreeNode :=
  match s with
  | [] => Some node
  | c :: s' => children node !! c ≫= fun node' => walk node' s'
  end.

(** [g] spells a path from [root] to a sentinel node. *)
Definition terminal (root : TreeNode) (g : str) : Prop :=
  ∃ node, walk root g = Some node ∧ sentinel node = true.

(** The prefix [line[:k]] is a candidate of the loop of [_parse]: it is
    not empty, it ends at a sentinel node, and [f] (the recursive call)
    parses the rest. *)
Definition candidate (root : TreeNode) (f : str → str) (line : str) (k : nat) : Prop :=
  0 < k ≤ length line ∧ terminal root (take k line) ∧ f (drop k line) ≠ [].

(** The value the loop assigns to [parse] at a candidate. *)
Definition candidate_parse (f : str → str) (line : str) (k : nat) : str :=
  take k line ++ [c_space] ++ f (drop k line).

(** What the loop returns when entered at index [curr] with [parse]: the
    parse of the longest candidate beyond [curr], or [parse] unchanged. *)
Definition selects (root : TreeNode) (f : str → str) (line : str)
    (curr : nat) (parse r : str) : Prop :=
  (∃ k, curr < k ∧ candidate root f line k ∧
        (∀ k', k < k' → ¬ candidate root f line k') ∧
        r = candidate_parse f line k)
  ∨ ((∀ k, curr < k → ¬ candidate root f line k) ∧ r = parse).

(** The walk of [printMultigraphs] passes a sentinel node at index [k]. *)
Definition sentinel_at (root : TreeNode) (line : str) (k : nat) : Prop :=
  k < length line ∧ terminal root (take (S k) line).

(** What the loop of [printMultigraphs] leaves in [last] when entered at
    index [curr]: the largest index from [curr] on at which the walk
    passes a sentinel node, or [last] unchanged. *)
Definition marks (root : TreeNode) (line : str) (curr last l : nat) : Prop :=
  (∃ k, curr ≤ k ∧ sentinel_at root line k ∧
        (∀ k', k < k' → ¬ sentinel_at root line k') ∧ l = k)
  ∨ ((∀ k, curr ≤ k → ¬ sentinel_at root line k) ∧ l = last).

(** [w] is a concatenation of non-empty graphemes of the trie. *)
Definition segmentable (root : TreeNode) (w : str) : Prop :=
  ∃ gs, Forall (fun g => g ≠ [] ∧ terminal root g) gs ∧ concat gs = w.

(** The prefix [line[:k]] is not empty, ends at a sentinel node, and the
    rest of the line splits into graphemes of the trie. *)
Definition parsable_prefix (root : TreeNode) (line : str) (k : nat) : Prop :=
  0 < k ≤ length line ∧ terminal root (take k line) ∧ segmentable root (drop k line).

(** [line[:k]] is the longest such prefix of [line]. *)
Definition longest_parsable_prefix (root : TreeNode) (line : str) (k : nat) : Prop :=
  parsable_prefix root line k ∧ ∀ k', parsable_prefix root line k' → k' ≤ k.

(** The tokenization in the words of the specification: the longest
    prefix that ends at a sentinel node and whose remainder can be fully
    parsed, followed by the tokenization of that remainder. *)
Inductive longest_prefix_segments (root : TreeNode) : str → list str → Prop :=
| lps_nil : longest_prefix_segments root [] []
| lps_cons line k gs :
    longest_parsable_prefix root line k →
    longest_prefix_segments root (drop k line) gs →
    longest_prefix_segments root line (take k line :: gs).

(** What [printMultigraphs] cuts off a non-empty line: the longest prefix
    that ends at a sentinel node, or one character when there is none. *)
Definition longest_match (root : TreeNode) (line : str) (k : nat) : Prop :=
  0 < k ≤ length line ∧
  (terminal root (take k line) ∨ k = 1) ∧
  ∀ k', 0 < k' ≤ length line → terminal root (take k' line) → k' ≤ k.

(** The greedy segmentation of a line: its longest match, then the
    greedy segmentation of the rest. *)
Inductive longest_match_segments (root : TreeNode) : str → list str → Prop :=
| lms_nil : longest_match_segments root [] []
| lms_cons line k segments :
    longest_match root line k →
    longest_match_segments root (drop k line) segments →
    longest_match_segments root line (take k line :: segments).

Section TreeInit.

Variable NFD : str -> str.
Variable lower : str -> str.        (* str.lower *)

(** Body of the [for i, tokens in enumerate(...)] loop of [Tree.__init__]. *)
Definition init_row (root : TreeNode) (i : nat) (tokens : list str) : py_result TreeNode :=
  let! tokens0 := getitem tokens 0 in
  if bool_decide (i = 0) && startswith (lower tokens0) (py "graphemes")
  then Ok root                                                (* continue *)
  else Ok (addMultigraph root tokens0).

Fixpoint init_rows (root : TreeNode) (i : nat) (rows : list (list str)) : py_result TreeNode :=
  match rows with
  | [] => Ok root
  | tokens :: rows' =>
      let! root' := init_row root i tokens in
      init_rows root' (i + 1) rows'
  end.

(** [Tree(filename)]: the root of the constructed tree. *)
Definition __init__ (lines : list str) : py_result TreeNode :=
  init_rows (new_TreeNode [] true) 0 (normalized_rows NFD lines c_tab true).

(** The graphemes the loop of [Tree.__init__] inserts from row [i] on:
    the first field of every row, except a header in row 0. *)
Fixpoint row_graphemes (i : nat) (rows : list (list str)) : list str :=
  match rows with
  | [] => []
  | tokens :: rows' =>
      let tokens0 := default [] (head tokens) in
      if bool_decide (i = 0) && startswith (lower tokens0) (py "graphemes")
      then row_graphemes (i + 1) rows'
      else tokens0 :: row_graphemes (i + 1) rows'
  end.

(** The graphemes of the profile as [Tree.__init__] reads it. *)
Definition profile_graphemes (lines : list str) : list str :=
  row_graphemes 0 (normalized_rows NFD lines c_tab true).

End TreeInit.

End Tree.

(** ** tokenizer.py *)

Module Tokenizer.

Section Tokenizer.

Variable NFD : str -> str.                  (* unicodedata.normalize("NFD", .) *)
Variable lower : str -> str.                (* str.lower *)
Variable category : char -> str.            (* unicodedata.category *)
Context {pattern : Type}.                   (* a compiled regular expression *)
Variable re_compile : str -> option pattern. (* re.compile; None: re.error is raised *)
Variable re_search : pattern -> str -> bool. (* truth value of pattern.search(s) *)
Variable re_sub : pattern -> str -> str -> option str.
                             (* re.sub(pattern, repl, s); None: re.error is raised *)
Variable grapheme_pattern_findall : str -> list str.  (* re.compile("\X").findall *)

(** The attributes of a [Tokenizer] object.  [tree] is [self.tree.root]. *)
Record Tokenizer : Type := mkTokenizer {
  orthography_profile : option str;
  tree : Tree.TreeNode;
  column_labels : list str;
  mappings : gmap (str * str) str;
  op_graphemes : gmap str nat;
  orthography_profile_rules : option str;
  op_rules : list pattern;
  op_replacements : list str
}.

Definition set_column_labels (f : list str -> list str) (self : Tokenizer) : Tokenizer :=
  mkTokenizer (orthography_profile self) (tree self) (f (column_labels self))
    (mappings self) (op_graphemes self) (orthography_profile_rules self)
    (op_rules self) (op_replacements self).

Definition set_mappings (f : gmap (str * str) str -> gmap (str * str) str)
    (self : Tokenizer) : Tokenizer :=
  mkTokenizer (orthography_profile self) (tree self) (column_labels self)
    (f (mappings self)) (op_graphemes self) (orthography_profile_rules self)
    (op_rules self) (op_replacements self).

Definition set_op_graphemes (f : gmap str nat -> gmap str nat)
    (self : Tokenizer) : Tokenizer :=
  mkTokenizer (orthography_profile self) (tree self) (column_labels self)
    (mappings self) (f (op_graphemes self)) (orthography_profile_rules self)
    (op_rules self) (op_replacements self).

Definition set_rules (rs : list pattern) (reps : list str) (self : Tokenizer) : Tokenizer :=
  mkTokenizer (orthography_profile self) (tree self) (column_labels self)
    (mappings self) (op_graphemes self) (orthography_profile_rules self)
    rs reps.

(** *** _init_profile *)

(** [for i in range(0, len(tokens)): ...], [is_] being the indices left. *)
Fixpoint _init_profile_columns (grapheme : str) (tokens : list str) (is_ : list nat)
    (self : Tokenizer) : py_result Tokenizer :=
  match is_ with
  | [] => Ok self
  | i :: is' =>
      let! tokens_i := getitem tokens i in
      let token := strip tokens_i in
      let! label := getitem (column_labels self) i in
      _init_profile_columns grapheme tokens is'
        (set_mappings <[(grapheme, lower label) := token]> self)
  end.

(** One iteration of [for line in f], after [line_count += 1]. *)
Definition _init_profile_line (self : Tokenizer) (line_count : nat) (line : str)
    : py_result Tokenizer :=
  let line := strip line in
  if startswith line [c_hash] || bool_decide (line = []) then Ok self
  else if startswith (lower line) (py "graphemes") then
    let column_tokens := split_on c_tab line in
    Ok (set_column_labels
          (fun labels => labels ++ ((fun column_token => strip (lower column_token))
                                      <$> column_tokens)) self)
  else
    let line := NFD line in
    let tokens := split_on c_tab line in
    let! tokens0 := getitem tokens 0 in
    let grapheme := strip tokens0 in
    let! self :=
      (if bool_decide (op_graphemes self !! grapheme = None)
       then Ok (set_op_graphemes <[grapheme := 1]> self)
       else Raise (DuplicateGrapheme line_count)) in
    if bool_decide (length tokens = 1) then Ok self
    else _init_profile_columns grapheme tokens (seq 0 (length tokens)) self.

Fixpoint _init_profile_lines (self : Tokenizer) (line_count : nat) (lines : list str)
    : py_result Tokenizer :=
  match lines with
  | [] => Ok self
  | line :: lines' =>
      let line_count := line_count + 1 in
      let! self := _init_profile_line self line_count line in
      _init_profile_lines self line_count lines'
  end.

(** [self._init_profile(f)], [lines] being the lines of file [f]. *)
Definition _init_profile (self : Tokenizer) (lines : list str) : py_result Tokenizer :=
  _init_profile_lines self 0 lines.

(** How [_init_profile] classifies a line: a data row is neither blank,
    nor a comment, nor a header. *)
Definition header_line (line : str) : bool :=
  let line := strip line in
  negb (startswith line [c_hash] || bool_decide (line = [])) &&
  startswith (lower line) (py "graphemes").

Definition data_line (line : str) : bool :=
  let line := strip line in
  negb (startswith line [c_hash] || bool_decide (line = [])) &&
  negb (startswith (lower line) (py "graphemes")).

(** The fields and the grapheme [_init_profile] reads from a data row. *)
Definition line_tokens (line : str) : list str := split_on c_tab (NFD (strip line)).

Definition line_grapheme (line : str) : str :=
  strip (default [] (head (line_tokens line))).

(** The number of column labels a line appends. *)
Definition labels_of_line (line : str) : nat :=
  if header_line line then length (split_on c_tab (strip line)) else 0.

Definition declared_labels (lines : list str) : nat :=
  sum_list (labels_of_line <$> lines).

(** The column labels a line appends, and those of a list of lines. *)
Definition line_labels (line : str) : list str :=
  if header_line line
  then (fun column_token => strip (lower column_token)) <$> split_on c_tab (strip line)
  else [].

Definition header_labels (lines : list str) : list str :=
  concat (line_labels <$> lines).

(** Line [d] (0-based) is a data row whose grapheme is in [seen] or is
    the grapheme of an earlier data row. *)
Definition repeats (seen : gmap str nat) (lines : list str) (d : nat) : bool :=
  match lines !! d with
  | Some l =>
      data_line l &&
      (bool_decide (is_Some (seen !! line_grapheme l)) ||
       existsb (fun l' => data_line l' && bool_decide (line_grapheme l' = line_grapheme l))
               (take d lines))
  | None => false
  end.

(** The first line that repeats a grapheme, searching from line [d] for
    [n] lines. *)
Fixpoint first_repeat_from (seen : gmap str nat) (lines : list str) (d n : nat)
    : option nat :=
  match n with
  | O => None
  | S n' => if repeats seen lines d then Some d
            else first_repeat_from seen lines (d + 1) n'
  end.

Definition first_repeat (lines : list str) : option nat :=
  first_repeat_from ∅ lines 0 (length lines).

(** Line [m], if a data row, has one field or no more fields than there
    are column labels when it is read ([nlabels] before the first line). *)
Definition fits (nlabels : nat) (lines : list str) (m : nat) : bool :=
  match lines !! m with
  | Some l =>
      negb (data_line l) ||
      bool_decide (length (line_tokens l) = 1) ||
      bool_decide (length (line_tokens l) ≤ nlabels + declared_labels (take m lines))
  | None => true
  end.

Definition all_fit_before (nlabels : nat) (lines : list str) (d : nat) : bool :=
  forallb (fits nlabels lines) (seq 0 d).

(** *** _init_rules *)

(** One iteration of [for line in rules_file]. *)
Definition _init_rules_line (self : Tokenizer) (line : str) : py_result Tokenizer :=
  let line := strip line in
  if startswith line [c_hash] || bool_decide (line = []) then Ok self
  else
    let line := NFD line in
    match split_on c_comma line with
    | [rule; replacement] =>
        let rule := strip rule in
        let replacement := strip replacement in
        let! compiled := re_call (re_compile rule) in
        Ok (set_rules (op_rules self ++ [compiled])
                      (op_replacements self ++ [replacement]) self)
    | _ => Raise UnpackError
    end.

Fixpoint _init_rules_lines (self : Tokenizer) (lines : list str) : py_result Tokenizer :=
  match lines with
  | [] => Ok self
  | line :: lines' =>
      let! self := _init_rules_line self line in
      _init_rules_lines self lines'
  end.

(** [self._init_rules(f)], [lines] being the lines of file [f]. *)
Definition _init_rules (self : Tokenizer) (lines : list str) : py_result Tokenizer :=
  let! self := _init_rules_lines self lines in
  if bool_decide (length (op_rules self) ≠ length (op_replacements self))
  then Raise RulesCountMismatch
  else Ok self.

(** How [_init_rules] classifies a line: a rule line is neither blank
    nor a comment; it carries a pattern and a replacement when it splits
    into exactly two comma-separated fields. *)
Definition rule_line (line : str) : bool :=
  let line := strip line in
  negb (startswith line [c_hash] || bool_decide (line = [])).

Definition two_fields (line : str) : bool :=
  bool_decide (length (split_on c_comma (NFD (strip line))) = 2).

(** *** __init__ *)

(** [Tokenizer(orthography_profile)].  [ortho_path] is the resolved path
    without extension; [prf] and [rules] are the lines of
    [ortho_path + ".prf"] and [ortho_path + ".rules"] when these files
    exist. *)
Definition __init__ (ortho_path : str) (prf rules : option (list str))
    : py_result Tokenizer :=
  let! self :=
    match prf with
    | Some lines =>
        let! root := Tree.__init__ NFD lower lines in
        _init_profile
          (mkTokenizer (Some (ortho_path ++ py ".prf")) root [] ∅ ∅ None [] []) lines
    | None =>
        Ok (mkTokenizer None (Tree.new_TreeNode [] true) [] ∅ ∅ None [] [])
    end in
  match rules with
  | Some lines =>
      _init_rules
        (mkTokenizer (orthography_profile self) (tree self) (column_labels self)
           (mappings self) (op_graphemes self) (Some (ortho_path ++ py ".rules"))
           [] []) lines
  | None => Ok self
  end.

(** *** Tokenization *)

(** [self.characters(string)] *)
Definition characters (string : str) : str :=
  let string := replace [c_space] [c_hash] string in
  let string := NFD string in
  strip (foldl (fun result character => result ++ [character] ++ [c_space]) [] string).

(** [self.grapheme_clusters(string)] *)
Definition grapheme_clusters (string : str) : str :=
  let string := replace [c_space] [c_hash] string in
  let string := NFD string in
  let graphemes := grapheme_pattern_findall string in
  strip (foldl (fun result grapheme => result ++ grapheme ++ [c_space]) [] graphemes).

(** [self.find_missing_characters(char_tokenized_string)] *)
Definition find_missing_characters (self : Tokenizer) (char_tokenized_string : str) : str :=
  join [c_space]
    ((fun c => if bool_decide (is_Some (op_graphemes self !! c)) then c else [c_qmark])
       <$> split char_tokenized_string).

(** Body of [for word in string.split()] in [graphemes]: the parse
    appended to [parses]. *)
Definition graphemes_word (self : Tokenizer) (word : str) : str :=
  let parse := Tree.parse (tree self) word in
  if bool_decide (length parse = 0)
  then [c_space] ++ find_missing_characters self (characters word)
  else parse.

(** [self.graphemes(string)] *)
Definition graphemes (self : Tokenizer) (string : str) : str :=
  let string := NFD string in
  match orthography_profile self with
  | None => grapheme_clusters string
  | Some _ =>
      let parses := graphemes_word self <$> split string in
      let result := replace (py "##") (py "#") (join [] parses) in
      let result := rstrip (py "#") result in
      let result := lstrip (py "#") result in
      strip result
  end.

(** [for token in tokens: ...] in [transform]; [result] is the list built
    so far. *)
Fixpoint transform_tokens (self : Tokenizer) (column : str) (tokens : list str)
    (result : list str) : py_result (list str) :=
  match tokens with
  | [] => Ok result
  | token :: tokens' =>
      if bool_decide (token = py "#") then
        transform_tokens self column tokens' (result ++ [py "#"])
      else if bool_decide (token = py "?") then
        transform_tokens self column tokens' (result ++ [py "?"])
      else
        match mappings self !! (token, column) with
        | None => Raise KeyError
        | Some target =>
            if negb (bool_decide (target = py "NULL"))
            then transform_tokens self column tokens' (result ++ [target])
            else transform_tokens self column tokens' result
        end
  end.

(** [self.transform(string, column)] *)
Definition transform (self : Tokenizer) (string column : str) : py_result str :=
  match orthography_profile self with
  | None => Raise NoProfileError
  | Some _ =>
      if bool_decide (column = py "graphemes") then Ok (graphemes self string)
      else if negb (bool_decide (column ∈ column_labels self))
      then Ok (graphemes self string)
      else
        let tokenized_string := graphemes self string in
        let tokens := split tokenized_string in
        let! result := transform_tokens self column tokens [] in
        Ok (strip (join [c_space] result))
  end.


(** *** Rules *)

(** [for i in range(0, len(self.op_rules)): ...], [is_] being the indices
    left and [result] the string rewritten so far. *)
Fixpoint rules_loop (self : Tokenizer) (is_ : list nat) (result : str) : py_result str :=
  match is_ with
  | [] => Ok result
  | i :: is' =>
      let! rule := getitem (op_rules self) i in
      if re_search rule result then
        let! replacement := getitem (op_replacements self) i in
        let! result := re_call (re_sub rule replacement result) in
        rules_loop self is' result
      else rules_loop self is' result
  end.

(** The rule engine in the words of the specification: each rule is
    applied in sequence to the accumulated result of the previous rule;
    a rule that matches nowhere is a no-op. *)
Fixpoint apply_in_sequence (rs : list (pattern * str)) (acc : str) : py_result str :=
  match rs with
  | [] => Ok acc
  | (rule, replacement) :: rs' =>
      if re_search rule acc then
        let! acc := re_call (re_sub rule replacement acc) in
        apply_in_sequence rs' acc
      else apply_in_sequence rs' acc
  end.

(** [self.rules(string)] *)
Definition rules (self : Tokenizer) (string : str) : py_result str :=
  match orthography_profile_rules self with
  | None => Ok string
  | Some _ =>
      let result := NFD string in
      let! result := rules_loop self (seq 0 (length (op_rules self))) result in
      Ok (NFD result)
  end.

(** [self.tokenize(string, column)] *)
Definition tokenize (self : Tokenizer) (string column : str) : py_result str :=
  match orthography_profile self, orthography_profile_rules self with
  | Some _, Some _ => let! t := transform self string column in rules self t
  | None, None => Ok (grapheme_clusters string)
  | Some _, None => transform self string column
  | None, Some _ => rules self (grapheme_clusters string)
  end.

(** [self.transform_rules(string)] *)
Definition transform_rules (self : Tokenizer) (string : str) : py_result str :=
  let! t := transform self string (py "graphemes") in rules self t.

(** *** combine_modifiers *)

(** The combining double inverted breve and double breve below. *)
Definition tie_bars : list char := [865%N; 860%N].

(** [result[-1] = temp + result[-1]] *)
Definition prepend_to_last (temp : str) (result : list str) : py_result (list str) :=
  match list.last result with
  | None => Raise IndexError
  | Some x => Ok (take (length result - 1) result ++ [temp ++ x])
  end.

(** [len(grapheme) == 1 and unicodedata.category(grapheme) == "Lm"] *)
Definition is_modifier (grapheme : str) : bool :=
  bool_decide (length grapheme = 1) &&
  bool_decide (category (default 0%N (head grapheme)) = py "Lm").

(** [for grapheme in reversed(graphemes): ...]; [rev_graphemes] are the
    graphemes still to come, last first, and [count] is the value of
    [count] before the decrement. *)
Fixpoint combine_loop (rev_graphemes : list str) (count : nat) (temp : str)
    (result : list str) : py_result (list str) :=
  match rev_graphemes with
  | [] => Ok result
  | grapheme :: rest =>
      let count := count - 1 in
      if is_modifier grapheme then
        let temp := grapheme ++ temp in
        if bool_decide (count = 0) then
          let! result := prepend_to_last temp result in
          combine_loop rest count temp result
        else combine_loop rest count temp result
      else combine_loop rest count [] (result ++ [grapheme ++ temp])
  end.

(** [while i < len(segments): ...]; [rest] is [segments[i:]] and [r] the
    list built so far. *)
Fixpoint tie_bar_loop (rest : list str) (r : list str) : py_result (list str) :=
  match rest with
  | [] => Ok r
  | segment :: rest' =>
      match list.last segment with
      | None => Raise IndexError                   (* segments[i][-1] *)
      | Some c =>
          if bool_decide (c ∈ tie_bars) then
            match rest' with
            | [] => Raise IndexError               (* segments[i+1] *)
            | next :: rest'' => tie_bar_loop rest'' (r ++ [segment ++ next])
            end
          else tie_bar_loop rest' (r ++ [segment])
      end
  end.

(** The test of the [while] loop: the segment ends in a tie bar. *)
Definition ends_in_tie_bar (segment : str) : bool :=
  match list.last segment with
  | Some c => bool_decide (c ∈ tie_bars)
  | None => false
  end.

(** The number of consecutive segments ending in a tie bar at the end of
    [segments]. *)
Fixpoint leading_tie_run (rev_segments : list str) : nat :=
  match rev_segments with
  | [] => 0
  | segment :: rest => if ends_in_tie_bar segment then S (leading_tie_run rest) else 0
  end.

Definition trailing_tie_run (segments : list str) : nat :=
  leading_tie_run (reverse segments).

(** [self.combine_modifiers(string)] *)
Definition combine_modifiers (string : str) : py_result str :=
  let graphemes := split string in
  let! result := combine_loop (reverse graphemes) (length graphemes) [] [] in
  let segments := reverse result in
  let! r := tie_bar_loop segments [] in
  Ok (join [c_space] r).

(** [self.tokenize_ipa(string)] *)
Definition tokenize_ipa (string : str) : py_result str :=
  let string := NFD string in
  combine_modifiers (grapheme_clusters string).

End Tokenizer.

Arguments Tokenizer : clear implicits.

End Tokenizer.

(** ** Instances used in the examples

    On ASCII text NFD is the identity, [str.lower] shifts [A-Z], and a
    regular expression without metacharacters matches its own text. *)

Module Sample.

Definition NFD_ascii (s : str) : str := s.

Definition lower_ascii (s : str) : str :=
  (fun c : char => if ((65 <=? c) && (c <=? 90))%N then (c + 32)%N else c) <$> s.

(** An excerpt of the Unicode general categories: modifier letters
    U+02B0..U+02C1, the combining diacritical marks U+0300..U+036F, ASCII
    letters. *)
Definition category_excerpt (c : char) : str :=
  if ((688 <=? c) && (c <=? 705))%N then py "Lm"
  else if ((768 <=? c) && (c <=? 879))%N then py "Mn"
  else if ((97 <=? c) && (c <=? 122))%N then py "Ll"
  else if ((65 <=? c) && (c <=? 90))%N then py "Lu"
  else py "Cn".

(** Literal patterns: [search] is substring search, [sub] replaces every
    non-overlapping occurrence. *)
Definition lit_compile (s : str) : option str := Some s.

Fixpoint lit_search (p s : str) : bool :=
  startswith s p ||
  match s with
  | [] => false
  | _ :: s' => lit_search p s'
  end.

Definition lit_sub (p repl s : str) : option str := Some (replace p repl s).

(** [\X] on text without combining marks or line breaks. *)
Definition findall_chars (s : str) : list str := (fun c => [c]) <$> s.

(** A line of a profile or rules file: the fields joined by tabs, with
    the line terminator. *)
Definition row (fields : list string) : str :=
  join [c_tab] (py <$> fields) ++ [10%N].

Definition Tokenizer := Tokenizer.Tokenizer str.

Definition new_Tokenizer : str -> option (list str) -> option (list str) -> py_result Tokenizer :=
  Tokenizer.__init__ NFD_ascii lower_ascii lit_compile.

Definition graphemes : Tokenizer -> str -> str :=
  Tokenizer.graphemes NFD_ascii findall_chars.

Definition transform : Tokenizer -> str -> str -> py_result str :=
  Tokenizer.transform NFD_ascii findall_chars.

Definition rules : Tokenizer -> str -> py_result str :=
  Tokenizer.rules NFD_ascii lit_search lit_sub.

Definition combine_modifiers : str -> py_result str :=
  Tokenizer.combine_modifiers category_excerpt.

(** The tokenizer constructed from a profile and a rules file (an empty
    tokenizer when construction raises). *)
Definition load (prf rls : option (list str)) : Tokenizer :=
  match new_Tokenizer (py "p") prf rls with
  | Ok t => t
  | Raise _ => Tokenizer.mkTokenizer None (Tree.new_TreeNode [] true) [] ∅ ∅ None [] []
  end.

(** [graphemes] on a freshly constructed tokenizer. *)
Definition load_and_graphemes (prf : list str) (string : str) : py_result str :=
  let! t := new_Tokenizer (py "p") (Some prf) None in
  Ok (graphemes t string).

Definition load_and_transform (prf : list str) (string column : str) : py_result str :=
  let! t := new_Tokenizer (py "p") (Some prf) None in
  transform t string column.

Definition load_and_rules (rls : list str) (string : str) : py_result str :=
  let! t := new_Tokenizer (py "p") None (Some rls) in
  rules t string.

(** The trie holding the graphemes [a], [ab] and [bc]. *)
Definition root_a_ab_bc : Tree.TreeNode :=
  foldl Tree.addMultigraph (Tree.new_TreeNode [] true) [py "a"; py "ab"; py "bc"].

(** A profile with an [ipa] column that drops [b]. *)
Definition profile_ipa : list str :=
  [row ["graphemes"; "ipa"]; row ["a"; "x"]; row ["b"; "NULL"]]%string.

(** Three rule lines, the second without a replacement. *)
Definition rules_3_2 : list str :=
  [row ["a, b"]; row ["c"]; row ["d, e"]]%string.

(** The rules A -> B, B -> C. *)
Definition rules_A_B_C : list str :=
  [row ["A, B"]; row ["B, C"]]%string.

Definition profile_uu : list str :=
  [row ["graphemes"]; row ["uu"]]%string.

Definition profile_uu_b_o : list str :=
  [row ["graphemes"]; row ["uu"]; row ["b"]; row ["o"]]%string.

(** The row of [b] has no [ipa] field. *)
Definition profile_partial : list str :=
  [row ["graphemes"; "ipa"]; row ["a"; "x"]; row ["b"]]%string.

(** A rules file of comments and blank lines. *)
Definition rules_comments : list str :=
  [row ["# no rules yet"]; row [""]]%string.

(** Rows 2 and 4 declare the grapheme [a]. *)
Definition profile_dup : list str :=
  [row ["graphemes"; "ipa"]; row ["a"; "x"]; row ["b"; "z"]; row ["a"; "w"]]%string.

(** Rows 2 and 3 declare the grapheme [a]; row 2 has three fields under
    a header of two. *)
Definition profile_dup_ragged : list str :=
  [row ["graphemes"; "ipa"]; row ["a"; "x"; "y"]; row ["a"; "z"]]%string.

End Sample.

(** * Properties of the string primitives *)

Module StrFacts.

Lemma split_on_nonempty sep s : split_on sep s ≠ [].
Proof.
  destruct s as [|c s]; simpl; [done|].
  destruct (decide (c = sep)); [done|]. by destruct (split_on sep s).
Qed.

End StrFacts.

(** * Properties of the segmenter *)

Module TreeFacts.
Import Tree.

Lemma walk_app node s1 s2 :
  walk node (s1 ++ s2) = walk node s1 ≫= fun node' => walk node' s2.
Proof.
  revert node. induction s1 as [|c s1 IH]; intros node; simpl; [done|].
  destruct (children node !! c) as [node'|]; simpl; [apply IH|done].
Qed.

Lemma walk_take_le node (line : str) j k :
  j ≤ k → is_Some (walk node (take k line)) → is_Some (walk node (take j line)).
Proof.
  intros Hjk Hk.
  replace k with (j + (k - j)) in Hk by lia.
  rewrite <- take_take_drop in Hk.
  rewrite walk_app in Hk.
  destruct (walk node (take j line)); [eauto|].
  by destruct Hk.
Qed.

Section ParseLoop.

Variable root : TreeNode.
Variable f : str → str.
Variable line : str.

Lemma selects_step curr parse r :
  ¬ candidate root f line (curr + 1) →
  selects root f line (curr + 1) parse r → selects root f line curr parse r.
Proof.
  intros Hng [(k & Hk & Hg & Hmax & ->)|[Hnone ->]].
  - left. exists k. split_and!; [lia|done..].
  - right. split; [|done]. intros k Hk Hg.
    destruct (decide (k = curr + 1)) as [->|]; [done|].
    apply (Hnone k); [lia|done].
Qed.

Lemma selects_step_candidate curr parse r :
  candidate root f line (curr + 1) →
  selects root f line (curr + 1) (candidate_parse f line (curr + 1)) r →
  selects root f line curr parse r.
Proof.
  intros Hg [(k & Hk & Hgk & Hmax & ->)|[Hnone ->]].
  - left. exists k. split_and!; [lia|done..].
  - left. exists (curr + 1). split_and!; [lia|done|done|done].
Qed.

Lemma selects_unique curr parse r1 r2 :
  selects root f line curr parse r1 → selects root f line curr parse r2 → r1 = r2.
Proof.
  intros [(k1 & Hk1 & Hg1 & Hmax1 & ->)|[Hnone1 ->]]
         [(k2 & Hk2 & Hg2 & Hmax2 & ->)|[Hnone2 ->]]; try done.
  - destruct (decide (k1 = k2)) as [->|]; [done|].
    destruct (decide (k1 < k2)); [by destruct (Hmax1 k2)|].
    destruct (Hmax2 k1); [lia|done].
  - by destruct (Hnone2 k1).
  - by destruct (Hnone1 k2).
Qed.

Variable self_parse : str → option str.
Hypothesis self_parse_f :
  ∀ k, 0 < k ≤ length line → self_parse (drop k line) = Some (f (drop k line)).

(** The loop invariant: from index [curr], having followed [line[:curr]]
    to [node], the loop terminates within [len(line) - curr + 1]
    iterations and returns what [selects] describes. *)
Lemma _parse_while_selects n node curr parse :
  walk root (take curr line) = Some node →
  length line - curr < n →
  ∃ r, _parse_while self_parse line n node curr parse = Some r ∧
       selects root f line curr parse r.
Proof using self_parse_f.
  revert node curr parse.
  induction n as [|n IH]; intros node curr parse Hwalk Hn; [lia|].
  cbn [_parse_while]. destruct (decide (curr < length line)) as [Hlt|Hge].
  - destruct (line !! curr) as [c|] eqn:Hc;
      [|apply lookup_ge_None in Hc; lia].
    assert (Hstep : walk root (take (curr + 1) line) = children node !! c).
    { replace (curr + 1) with (S curr) by lia.
      rewrite (take_S_r _ _ _ Hc), walk_app, Hwalk. simpl.
      by destruct (children node !! c). }
    destruct (children node !! c) as [node'|] eqn:Hchild.
    + assert (Hn' : length line - (curr + 1) < n) by lia.
      destruct (sentinel node') eqn:Hsent.
      * rewrite self_parse_f by lia. simpl.
        destruct (decide (0 < length (f (drop (curr + 1) line)))) as [Hpos|Hzero].
        -- destruct (IH node' (curr + 1) (candidate_parse f line (curr + 1)) Hstep Hn')
             as (r & Hr & Hsel).
           exists r. split; [done|]. apply selects_step_candidate; [|done].
           split_and!; [lia|lia|by exists node'|].
           intros Heq. rewrite Heq in Hpos. simpl in Hpos. lia.
        -- destruct (IH node' (curr + 1) parse Hstep Hn') as (r & Hr & Hsel).
           exists r. split; [done|]. apply selects_step; [|done].
           intros (_ & _ & Hne). destruct (f (drop (curr + 1) line)); [done|].
           simpl in Hzero. lia.
      * destruct (IH node' (curr + 1) parse Hstep Hn') as (r & Hr & Hsel).
        exists r. split; [done|]. apply selects_step; [|done].
        intros (_ & (node'' & Hw & Hs) & _). congruence.
    + exists parse. split; [done|]. right. split; [|done].
      intros k Hk (_ & (node'' & Hw & _) & _).
      destruct (walk_take_le root line (curr + 1) k) as [x Hx]; [lia|eauto|].
      congruence.
  - exists parse. split; [done|]. right. split; [|done].
    intros k Hk (Hle & _). lia.
Qed.

End ParseLoop.

Lemma _parse_nil root : _parse root [] = [c_hash].
Proof. reflexivity. Qed.

Lemma _parse_fuel_selects root line fuel :
  line ≠ [] →
  (∀ k, 0 < k ≤ length line →
        _parse_fuel fuel root (drop k line) = Some (_parse root (drop k line))) →
  length line ≤ fuel →
  ∃ r, _parse_fuel (S fuel) root line = Some r ∧ selects root (_parse root) line 0 [] r.
Proof.
  intros Hne Hrec Hfuel. cbn [_parse_fuel].
  destruct (decide (length line = 0)) as [Hz|_].
  { by destruct line. }
  apply _parse_while_selects; [done|done|lia].
Qed.

(** Enough fuel gives the result: any bound above [len(line)] makes
    [_parse_fuel] return, and always the same value. *)
Lemma _parse_fuel_enough root m :
  ∀ line fuel, length line ≤ m → length line < fuel →
    _parse_fuel fuel root line = Some (_parse root line).
Proof.
  induction m as [|m IH]; intros line fuel Hm Hfuel.
  - destruct line; [|simpl in Hm; lia]. destruct fuel; [lia|done].
  - destruct (decide (line = [])) as [->|Hne].
    { destruct fuel; [lia|done]. }
    assert (Hlen : 0 < length line) by (destruct line; [done|simpl; lia]).
    destruct fuel as [|fuel]; [lia|].
    destruct (_parse_fuel_selects root line fuel) as (r & Hr & Hsel); [done| |lia|].
    { intros k Hk. apply IH; rewrite length_drop; lia. }
    destruct (_parse_fuel_selects root line (length line)) as (r' & Hr' & Hsel');
      [done| |lia|].
    { intros k Hk. apply IH; rewrite length_drop; lia. }
    rewrite Hr. unfold _parse at 1. rewrite Hr'. simpl.
    f_equal. eapply selects_unique; eauto.
Qed.

Lemma _parse_fuel_total root line fuel :
  length line < fuel → _parse_fuel fuel root line = Some (_parse root line).
Proof. by apply (_parse_fuel_enough root (length line)). Qed.

Lemma _parse_selects root line :
  line ≠ [] → selects root (_parse root) line 0 [] (_parse root line).
Proof.
  intros Hne.
  destruct (_parse_fuel_selects root line (length line)) as (r & Hr & Hsel);
    [done| |lia|].
  { intros k Hk. apply _parse_fuel_total; rewrite length_drop; lia. }
  assert (_parse root line = r) as ->; [|done].
  unfold _parse. by rewrite Hr.
Qed.

Lemma candidate_parse_nonempty f line k : candidate_parse f line k ≠ [].
Proof. unfold candidate_parse. by destruct (take k line). Qed.

(** [_parse] succeeds exactly on the words that split into graphemes. *)
Lemma _parse_nonempty_segmentable root :
  ∀ w, _parse root w ≠ [] ↔ segmentable root w.
Proof.
  intros w. remember (length w) as n eqn:Hn. revert w Hn.
  induction n as [n IH] using lt_wf_ind; intros w Hn.
  destruct (decide (w = [])) as [->|Hne].
  { split; [|done]. intros _. by exists []. }
  destruct (_parse_selects root w Hne) as [(k & Hk & Hc & Hmax & Hr)|[Hnone Hr]].
  - split; [intros _|intros _; rewrite Hr; apply candidate_parse_nonempty].
    destruct Hc as (Hkl & Hterm & Hrest).
    apply (IH (length (drop k w))) in Hrest; [|rewrite length_drop; lia|done].
    destruct Hrest as (gs & Hgs & Hcat).
    exists (take k w :: gs). split.
    + constructor; [|done]. split; [|done].
      intros Heq. apply (f_equal length) in Heq. rewrite length_take in Heq.
      simpl in Heq. lia.
    + simpl. rewrite Hcat. apply take_drop.
  - split; [by rewrite Hr|]. intros (gs & Hgs & Hcat). exfalso.
    assert (Hex : ∃ g gs', g ≠ [] ∧ terminal root g ∧ segmentable root gs' ∧ w = g ++ gs').
    { clear -Hgs Hcat Hne. destruct gs as [|g gs]; [by simpl in Hcat; subst|].
      inversion Hgs as [|? ? [Hg Ht] Hgs']; subst.
      exists g, (concat gs). split_and!; [done|done|by exists gs|done]. }
    destruct Hex as (g & w' & Hg & Ht & Hseg & ->).
    apply (Hnone (length g)); [destruct g; [done|simpl; lia]|].
    split_and!.
    + destruct g; [done|simpl; lia].
    + rewrite length_app. lia.
    + by rewrite take_app_length.
    + rewrite drop_app_length.
      apply (IH (length w')); [rewrite length_app in Hn|done|done].
      destruct g; [done|simpl in Hn; lia].
Qed.

End TreeFacts.

Module TrieFacts.
Import StrFacts Tree.

Lemma terminal_nil node : terminal node [] ↔ sentinel node = true.
Proof.
  split; [intros (n & Hw & Hs); simpl in Hw; congruence|].
  intros Hs. by exists node.
Qed.

Lemma terminal_cons node c s :
  terminal node (c :: s) ↔ ∃ child, children node !! c = Some child ∧ terminal child s.
Proof.
  unfold terminal. simpl. split.
  - intros (n & Hw & Hs). destruct (children node !! c) as [child|]; [|done].
    exists child. split; [done|]. by exists n.
  - intros (child & -> & n & Hw & Hs). by exists n.
Qed.

Lemma terminal_new_TreeNode c s : ¬ terminal (new_TreeNode c false) s.
Proof.
  destruct s as [|c' s].
  - rewrite terminal_nil. done.
  - rewrite terminal_cons. intros (child & Hc & _).
    unfold new_TreeNode in Hc. simpl in Hc. by rewrite lookup_empty in Hc.
Qed.

(** After [addMultigraph(node, g)] the sentinel paths are those of
    [node] and [g]. *)
Lemma terminal_addMultigraph g :
  ∀ node s, terminal (addMultigraph node g) s ↔ s = g ∨ terminal node s.
Proof.
  induction g as [|c g IH]; intros node s.
  - simpl. destruct s as [|c' s].
    + rewrite !terminal_nil. simpl. naive_solver.
    + rewrite !terminal_cons. simpl. naive_solver.
  - cbn [addMultigraph]. destruct s as [|c' s].
    + rewrite !terminal_nil. simpl. naive_solver.
    + rewrite !terminal_cons. cbn [children].
      destruct (decide (c = c')) as [<-|Hne].
      * rewrite lookup_insert_eq.
        destruct (children node !! c) as [child|] eqn:Hchild; simpl.
        -- split.
           ++ intros (ch & [= <-] & Ht). apply IH in Ht as [->|Ht]; [by left|].
              right. by exists child.
           ++ intros [[= ->]|(ch & [= <-] & Ht)].
              ** eexists. split; [done|]. apply IH. by left.
              ** eexists. split; [done|]. apply IH. by right.
        -- split.
           ++ intros (ch & [= <-] & Ht). apply IH in Ht as [->|Ht]; [by left|].
              by apply terminal_new_TreeNode in Ht.
           ++ intros [[= ->]|(ch & [=] & _)].
              eexists. split; [done|]. apply IH. by left.
      * rewrite lookup_insert_ne by done. naive_solver.
Qed.

Lemma terminal_foldl_addMultigraph gs :
  ∀ node s, terminal (foldl addMultigraph node gs) s ↔ s ∈ gs ∨ terminal node s.
Proof.
  induction gs as [|g gs IH]; intros node s; simpl.
  - rewrite elem_of_nil. naive_solver.
  - rewrite IH, terminal_addMultigraph, elem_of_cons. naive_solver.
Qed.

Section Init.

Variable NFD : str → str.
Variable lower : str → str.

Lemma init_rows_foldl rows :
  ∀ root i root',
    init_rows lower root i rows = Ok root' →
    root' = foldl addMultigraph root (row_graphemes lower i rows).
Proof.
  induction rows as [|tokens rows IH]; intros root i root' H; simpl in H.
  - by injection H as <-.
  - unfold init_row, getitem in H. cbn [row_graphemes].
    destruct tokens as [|tokens0 tokens]; simpl in H; [done|]. simpl.
    destruct (bool_decide (i = 0) && startswith (lower tokens0) (py "graphemes"));
      simpl in H; by apply IH in H.
Qed.

(** [Tree(filename)] does not raise. *)
Lemma init_rows_total rows :
  Forall (fun tokens => tokens ≠ []) rows →
  ∀ root i, ∃ root', init_rows lower root i rows = Ok root'.
Proof.
  induction 1 as [|tokens rows Hne _ IH]; intros root i; simpl; [eauto|].
  unfold init_row, getitem. destruct tokens as [|tokens0 tokens]; [done|]. simpl.
  destruct (bool_decide (i = 0) && startswith (lower tokens0) (py "graphemes"));
    simpl; apply IH.
Qed.

Lemma normalized_rows_nonempty lines sep sc :
  Forall (fun tokens : list str => tokens ≠ []) (normalized_rows NFD lines sep sc).
Proof.
  unfold normalized_rows. induction lines as [|l lines IH]; simpl; [constructor|].
  destruct (bool_decide _ && _); simpl; [|done].
  constructor; [|done].
  intros Heq. apply fmap_nil_inv in Heq. by apply split_on_nonempty in Heq.
Qed.

Lemma __init___total lines : ∃ root, __init__ NFD lower lines = Ok root.
Proof. apply init_rows_total, normalized_rows_nonempty. Qed.

Lemma terminal___init__ lines root s :
  __init__ NFD lower lines = Ok root →
  terminal root s ↔ s ∈ profile_graphemes NFD lower lines ∨ s = [].
Proof.
  intros H. apply init_rows_foldl in H as ->.
  rewrite terminal_foldl_addMultigraph. unfold profile_graphemes.
  destruct s as [|c s].
  - rewrite terminal_nil. naive_solver.
  - rewrite terminal_cons. simpl. rewrite lookup_empty. naive_solver.
Qed.

End Init.

End TrieFacts.

Module SegmenterClaims.
Import Tree TreeFacts TrieFacts.

Lemma join_cons_ne sep (x : str) l : l ≠ [] → join sep (x :: l) = x ++ sep ++ join sep l.
Proof. by destruct l. Qed.

(** A successful [_parse] is the graphemes it chose, each followed by a
    space, and the closing boundary marker. *)
Lemma _parse_form root :
  ∀ w, _parse root w ≠ [] →
       ∃ gs, Forall (fun g => g ≠ [] ∧ terminal root g) gs ∧ concat gs = w ∧
             _parse root w = join [c_space] (gs ++ [[c_hash]]).
Proof.
  intros w. remember (length w) as n eqn:Hn. revert w Hn.
  induction n as [n IH] using lt_wf_ind; intros w Hn Hparse.
  destruct (decide (w = [])) as [->|Hne].
  { by exists []. }
  destruct (_parse_selects root w Hne) as [(k & Hk & Hc & Hmax & Hr)|[Hnone Hr]];
    [|done].
  destruct Hc as (Hkl & Hterm & Hrest).
  destruct (IH (length (drop k w))) with (w := drop k w)
    as (gs & Hgs & Hcat & Hform); [rewrite length_drop; lia|done|done|].
  exists (take k w :: gs). split_and!.
  - constructor; [|done]. split; [|done].
    intros Heq. apply (f_equal length) in Heq. rewrite length_take in Heq.
    simpl in Heq. lia.
  - simpl. rewrite Hcat. apply take_drop.
  - rewrite Hr. unfold candidate_parse. rewrite Hform.
    change ((take k w :: gs) ++ [[c_hash]]) with (take k w :: (gs ++ [[c_hash]])).
    rewrite join_cons_ne; [done|]. by destruct gs.
Qed.

(** A prefix is a candidate of the loop exactly when it ends at a
    sentinel node and the rest splits into graphemes. *)
Lemma candidate_parsable_prefix root line k :
  candidate root (_parse root) line k ↔ parsable_prefix root line k.
Proof.
  unfold candidate, parsable_prefix.
  by rewrite _parse_nonempty_segmentable.
Qed.

(** One step of [_parse]: the longest parsable prefix, a space, and the
    parse of the remainder. *)
Lemma _parse_longest_parsable_prefix root line k :
  longest_parsable_prefix root line k →
  _parse root line = take k line ++ [c_space] ++ _parse root (drop k line).
Proof.
  intros [Hk Hmax].
  assert (Hne : line ≠ []).
  { destruct Hk as [Hk _]. intros ->. simpl in Hk. lia. }
  destruct (_parse_selects root line Hne) as [(k0 & _ & Hc & Hmax0 & ->)|[Hnone _]].
  - assert (k0 = k) as ->; [|done].
    apply candidate_parsable_prefix in Hc.
    destruct (decide (k0 < k)) as [Hlt|Hge].
    + destruct (Hmax0 k Hlt). by apply candidate_parsable_prefix.
    + specialize (Hmax k0 Hc). lia.
  - destruct (Hnone k); [by destruct Hk as [? _]; lia|].
    by apply candidate_parsable_prefix.
Qed.

Lemma longest_prefix_segments_parse root line gs :
  longest_prefix_segments root line gs →
  _parse root line = join [c_space] (gs ++ [py "#"]).
Proof.
  induction 1 as [|line k gs Hk _ IH]; [reflexivity|].
  rewrite (_parse_longest_parsable_prefix root line k Hk), IH.
  change ((take k line :: gs) ++ [py "#"]) with (take k line :: (gs ++ [py "#"])).
  rewrite join_cons_ne; [done|]. by destruct gs.
Qed.

Lemma longest_prefix_segments_exist root :
  ∀ line, segmentable root line → ∃ gs, longest_prefix_segments root line gs.
Proof.
  intros line. remember (length line) as n eqn:Hn. revert line Hn.
  induction n as [n IH] using lt_wf_ind; intros line Hn Hseg.
  destruct (decide (line = [])) as [->|Hne].
  { exists []. constructor. }
  apply _parse_nonempty_segmentable in Hseg.
  destruct (_parse_selects root line Hne) as [(k & _ & Hc & Hmax & _)|[_ Hr]];
    [|done].
  apply candidate_parsable_prefix in Hc.
  destruct (IH (length (drop k line))) with (line := drop k line) as [gs Hgs].
  - destruct Hc as [? _]. rewrite length_drop. lia.
  - done.
  - by destruct Hc as (_ & _ & ?).
  - exists (take k line :: gs). constructor; [|done]. split; [done|].
    intros k' Hc'. destruct (decide (k' ≤ k)); [done|].
    destruct (Hmax k'); [lia|]. by apply candidate_parsable_prefix.
Qed.

(** C1: for every word, [parse] returns the tokenization given by the
    longest prefix that ends at a sentinel node of the trie and whose
    remainder can be fully parsed, followed by the tokenization of that
    remainder, down to the empty word: a word that splits into graphemes
    has such a tokenization [gs], [_parse] returns its segments joined
    by spaces with the closing "#", and [parse] the same after "# ".  A
    longer prefix that ends at a sentinel node is an attempt that
    failed (its remainder gives the empty parse) and does not change the
    result.  A word that does not split into graphemes gives the empty
    string. *)
Theorem C1_parse_longest_parsable_prefix root line :
  (segmentable root line → ∃ gs, longest_prefix_segments root line gs) ∧
  (∀ gs, longest_prefix_segments root line gs →
         _parse root line = join [c_space] (gs ++ [py "#"]) ∧
         parse root line = join [c_space] ([py "#"] ++ gs ++ [py "#"])) ∧
  (∀ k k', longest_parsable_prefix root line k →
           k < k' ≤ length line → terminal root (take k' line) →
           _parse root (drop k' line) = [] ∧
           _parse root line = take k line ++ [c_space] ++ _parse root (drop k line)) ∧
  (¬ segmentable root line → _parse root line = [] ∧ parse root line = []).
Proof.
  split_and!.
  - apply longest_prefix_segments_exist.
  - intros gs Hgs. pose proof (longest_prefix_segments_parse root line gs Hgs) as Hp.
    split; [done|]. unfold parse. rewrite Hp.
    change ([py "#"] ++ gs ++ [py "#"]) with (py "#" :: (gs ++ [py "#"])).
    rewrite join_cons_ne by (by destruct gs).
    destruct (decide (join [c_space] (gs ++ [py "#"]) = [])) as [He|_]; [|done].
    exfalso. clear -He. destruct gs as [|g [|g' gs]]; [done| |].
    + cbn in He. by destruct g.
    + change (g ++ [c_space] ++ join [c_space] ((g' :: gs) ++ [py "#"]) = []) in He.
      by destruct g.
  - intros k k' Hk Hk' Ht. split; [|by apply _parse_longest_parsable_prefix].
    destruct (decide (_parse root (drop k' line) = [])) as [|Hne]; [done|].
    destruct Hk as [_ Hmax]. specialize (Hmax k').
    assert (k' ≤ k); [|lia]. apply Hmax.
    split; [lia|]. split; [done|]. by apply _parse_nonempty_segmentable.
  - intros Hseg.
    assert (Hp : _parse root line = []).
    { destruct (decide (_parse root line = [])) as [|Hne]; [done|].
      by apply _parse_nonempty_segmentable in Hne. }
    split; [done|]. unfold parse. by rewrite Hp.
Qed.

(** With graphemes [a], [ab], [bc] the tokenization of [abc] is [a],
    [bc]: the longer prefix [ab] leaves [c], which does not parse. *)
Lemma C1_parse_longest_parsable_prefix_witness :
  longest_prefix_segments Sample.root_a_ab_bc (py "abc") [py "a"; py "bc"] ∧
  _parse Sample.root_a_ab_bc (py "abc") = py "a bc #" ∧
  parse Sample.root_a_ab_bc (py "abc") = py "# a bc #".
Proof.
  assert (Hbc : longest_prefix_segments Sample.root_a_ab_bc (py "bc") [py "bc"]).
  { refine (lps_cons Sample.root_a_ab_bc (py "bc") 2 [] _ (lps_nil _)).
    split.
    - split; [vm_compute; lia|].
      split; [eexists; split; vm_compute; reflexivity|].
      exists []. split; [constructor|reflexivity].
    - intros k' ((_ & Hk') & _). exact Hk'. }
  assert (Habc : longest_prefix_segments Sample.root_a_ab_bc (py "abc")
                   [py "a"; py "bc"]).
  { refine (lps_cons Sample.root_a_ab_bc (py "abc") 1 [py "bc"] _ Hbc).
    split.
    - split; [vm_compute; lia|].
      split; [eexists; split; vm_compute; reflexivity|].
      apply _parse_nonempty_segmentable. vm_compute. discriminate.
    - intros k' ((_ & Hk') & Ht & Hs).
      destruct k' as [|[|[|[|k']]]]; [lia|lia| | |vm_compute in Hk'; lia].
      + apply _parse_nonempty_segmentable in Hs. vm_compute in Hs. done.
      + destruct Ht as (node & Hw & _). vm_compute in Hw. discriminate. }
  split; [exact Habc|].
  exact (proj1 (proj2 (C1_parse_longest_parsable_prefix Sample.root_a_ab_bc (py "abc")))
           [py "a"; py "bc"] Habc).
Defined.

(** The fallback at work: [ab] is the longest grapheme at the start of
    [abc], its remainder [c] does not parse, and the result is the one
    recorded for [a]. *)
Example parse_abc_keeps_shorter_candidate :
  parse Sample.root_a_ab_bc (py "abc") = py "# a bc #" ∧
  terminal Sample.root_a_ab_bc (py "ab") ∧
  _parse Sample.root_a_ab_bc (py "c") = [].
Proof.
  split_and!; [by vm_compute| |by vm_compute].
  eexists. split; by vm_compute.
Qed.

(** C6 (as amended): the recursive [_parse] of the empty string is
    exactly ["#"]; the public [parse] prefixes every non-empty result
    with ["# "], so the parse of the empty word is ["# #"]. *)
Theorem C6_parse_empty root :
  _parse root [] = py "#" ∧ parse root [] = py "# #".
Proof. split; reflexivity. Qed.

(** C6, counterexample: [Tree.parse] of the empty word is not ["#"]. *)
Lemma C6_parse_empty_counterexample :
  parse (new_TreeNode [] true) (py "") = py "# #" ∧
  parse (new_TreeNode [] true) (py "") ≠ py "#".
Proof. split; [reflexivity|discriminate]. Qed.

(** C8: a non-empty [parse] of [w] is ["# g1 ... gk #"] where the [gi]
    are graphemes of the profile the trie was built from and
    [g1 ++ ... ++ gk = w]. *)
Theorem C8_parse_lossless (NFD lower : str → str) lines root w :
  __init__ NFD lower lines = Ok root →
  parse root w ≠ [] →
  ∃ gs, Forall (fun g => g ∈ profile_graphemes NFD lower lines) gs ∧
        concat gs = w ∧
        parse root w = join [c_space] ([py "#"] ++ gs ++ [py "#"]).
Proof.
  intros Hinit Hparse. unfold parse in *.
  destruct (decide (_parse root w = [])) as [|Hne]; [done|].
  destruct (_parse_form root w Hne) as (gs & Hgs & Hcat & Hform).
  exists gs. split_and!; [|done|].
  - revert Hgs. apply Forall_impl. intros g [Hg Ht].
    apply (terminal___init__ NFD lower lines root g Hinit) in Ht as [?|?]; done.
  - rewrite Hform. change ([py "#"] ++ gs ++ [py "#"]) with (py "#" :: (gs ++ [[c_hash]])).
    rewrite join_cons_ne; [done|]. by destruct gs.
Qed.

Lemma C8_parse_lossless_witness :
  ∃ root,
    __init__ Sample.NFD_ascii Sample.lower_ascii Sample.profile_uu_b_o = Ok root ∧
    parse root (py "uubo") ≠ [] ∧
    ∃ gs, Forall (fun g => g ∈ profile_graphemes Sample.NFD_ascii Sample.lower_ascii
                                 Sample.profile_uu_b_o) gs ∧
          concat gs = py "uubo" ∧
          parse root (py "uubo") = join [c_space] ([py "#"] ++ gs ++ [py "#"]).
Proof.
  eexists. split; [vm_compute; reflexivity|].
  split; [vm_compute; discriminate|].
  apply (C8_parse_lossless Sample.NFD_ascii Sample.lower_ascii Sample.profile_uu_b_o).
  - vm_compute. reflexivity.
  - vm_compute. discriminate.
Defined.

End SegmenterClaims.

(** * Properties of profile loading *)

Module ProfileFacts.
Import StrFacts Tokenizer.

Section Profile.

Variable NFD : str → str.
Variable lower : str → str.
Context {pattern : Type}.
Variable re_compile : str → option pattern.

Local Abbreviation Tokenizer := (Tokenizer pattern).
Local Abbreviation data_line := (data_line lower).
Local Abbreviation header_line := (header_line lower).
Local Abbreviation line_tokens := (line_tokens NFD).
Local Abbreviation line_grapheme := (line_grapheme NFD).
Local Abbreviation labels_of_line := (labels_of_line lower).
Local Abbreviation declared_labels := (declared_labels lower).
Local Abbreviation repeats := (repeats NFD lower).
Local Abbreviation fits := (fits NFD lower).
Local Abbreviation all_fit_before := (all_fit_before NFD lower).
Local Abbreviation first_repeat_from := (first_repeat_from NFD lower).
Local Abbreviation first_repeat := (first_repeat NFD lower).
Local Abbreviation _init_profile_columns := (_init_profile_columns lower (pattern:=pattern)).
Local Abbreviation _init_profile_line := (_init_profile_line NFD lower (pattern:=pattern)).
Local Abbreviation _init_profile_lines := (_init_profile_lines NFD lower (pattern:=pattern)).

(** The column loop raises exactly when it runs out of labels, and
    touches nothing but [mappings]. *)
Lemma _init_profile_columns_ok g tokens n :
  ∀ a (self : Tokenizer),
    a + n ≤ length tokens → a + n ≤ length (column_labels self) →
    ∃ self', _init_profile_columns g tokens (seq a n) self = Ok self' ∧
             op_graphemes self' = op_graphemes self ∧
             column_labels self' = column_labels self.
Proof.
  induction n as [|n IH]; intros a self Ht Hl; simpl; [eauto|].
  unfold getitem.
  destruct (tokens !! a) as [t|] eqn:Ha; [|apply lookup_ge_None in Ha; lia].
  destruct (column_labels self !! a) as [lbl|] eqn:Hb;
    [|apply lookup_ge_None in Hb; lia].
  simpl.
  destruct (IH (S a) (set_mappings <[(g, lower lbl) := strip t]> self))
    as (self' & -> & Hg & Hc); [lia|simpl; lia|].
  eauto.
Qed.

Lemma _init_profile_columns_raise g tokens n :
  ∀ a (self : Tokenizer),
    a + n ≤ length tokens →
    a ≤ length (column_labels self) < a + n →
    _init_profile_columns g tokens (seq a n) self = Raise IndexError.
Proof.
  induction n as [|n IH]; intros a self Ht Hl; simpl; [lia|].
  unfold getitem.
  destruct (tokens !! a) as [t|] eqn:Ha; [|apply lookup_ge_None in Ha; lia].
  destruct (column_labels self !! a) as [lbl|] eqn:Hb; simpl; [|done].
  apply lookup_lt_Some in Hb.
  apply IH; simpl; lia.
Qed.

Lemma data_header_exclusive l : data_line l = true → header_line l = false.
Proof.
  unfold Tokenizer.data_line, Tokenizer.header_line.
  destruct (negb _); simpl; [|done]. by destruct (startswith _ (py "graphemes")).
Qed.

Lemma repeats_cons seen l rest m :
  repeats seen (l :: rest) (S m) =
  repeats (if data_line l then <[line_grapheme l := 1]> seen else seen) rest m.
Proof.
  unfold Tokenizer.repeats. simpl.
  destruct (rest !! m) as [lm|]; [|done].
  destruct (data_line lm); simpl; [|done].
  destruct (data_line l) eqn:Hd; simpl; [|done].
  destruct (decide (line_grapheme l = line_grapheme lm)) as [Heq|Hne].
  - rewrite (bool_decide_eq_true_2 _ Heq). simpl.
    rewrite Heq, lookup_insert_eq.
    rewrite (bool_decide_eq_true_2 (is_Some (Some 1))) by eauto.
    by rewrite orb_true_r.
  - rewrite (bool_decide_eq_false_2 _ Hne). simpl.
    by rewrite lookup_insert_ne.
Qed.

Lemma repeats_0 seen l rest :
  repeats seen (l :: rest) 0 =
  data_line l && bool_decide (is_Some (seen !! line_grapheme l)).
Proof. unfold Tokenizer.repeats. simpl. by rewrite orb_false_r. Qed.

Lemma fits_cons nl l rest m :
  fits nl (l :: rest) (S m) = fits (nl + labels_of_line l) rest m.
Proof.
  unfold Tokenizer.fits. simpl. destruct (rest !! m) as [lm|]; [|done].
  unfold Tokenizer.declared_labels. simpl.
  by rewrite Nat.add_assoc.
Qed.

Lemma all_fit_before_cons nl l rest d :
  all_fit_before nl (l :: rest) (S d) =
  fits nl (l :: rest) 0 && all_fit_before (nl + labels_of_line l) rest d.
Proof.
  unfold Tokenizer.all_fit_before. cbn [seq forallb]. f_equal.
  rewrite <- fmap_S_seq. generalize (seq 0 d). intros ms.
  induction ms as [|m ms IH]; [done|].
  rewrite fmap_cons. cbn [forallb]. by rewrite fits_cons, IH.
Qed.

Lemma all_fit_before_0 nl lines : all_fit_before nl lines 0 = true.
Proof. reflexivity. Qed.

(** Loading stops at the first line [d] that repeats a grapheme, with the
    duplicate error for line [d + 1], unless a data row before it has
    more fields than there are column labels. *)
Lemma _init_profile_lines_repeat lines :
  ∀ (self : Tokenizer) lc d,
    repeats (op_graphemes self) lines d = true →
    (∀ m, m < d → repeats (op_graphemes self) lines m = false) →
    _init_profile_lines self lc lines =
      Raise (if all_fit_before (length (column_labels self)) lines d
             then DuplicateGrapheme (lc + d + 1) else IndexError).
Proof.
  induction lines as [|l rest IH]; intros self lc d Hrep Hfirst.
  { unfold Tokenizer.repeats in Hrep. by rewrite lookup_nil in Hrep. }
  cbn [Tokenizer._init_profile_lines]. unfold Tokenizer._init_profile_line.
  pose proof (eq_refl : data_line l = data_line l) as Hdata.
  pose proof (eq_refl : header_line l = header_line l) as Hhead.
  unfold Tokenizer.data_line in Hdata at 2.
  unfold Tokenizer.header_line in Hhead at 2.
  cbv zeta in Hdata, Hhead.
  destruct (startswith (strip l) [c_hash] || bool_decide (strip l = [])) eqn:Hskip;
    simpl in Hdata, Hhead.
  - (* blank line or comment *)
    cbn [bind]. destruct d as [|d].
    { rewrite repeats_0, Hdata in Hrep. done. }
    rewrite repeats_cons, Hdata in Hrep.
    rewrite all_fit_before_cons. unfold Tokenizer.fits at 1. simpl.
    rewrite Hdata. simpl.
    unfold Tokenizer.labels_of_line. rewrite Hhead, Nat.add_0_r.
    rewrite (IH self (lc + 1) d Hrep).
    + by replace (lc + 1 + d + 1) with (lc + S d + 1) by lia.
    + intros m Hm. specialize (Hfirst (S m) ltac:(lia)).
      by rewrite repeats_cons, Hdata in Hfirst.
  - destruct (startswith (lower (strip l)) (py "graphemes")) eqn:Hhdr;
      simpl in Hdata, Hhead.
    + (* header *)
      cbn [bind]. destruct d as [|d].
      { rewrite repeats_0, Hdata in Hrep. done. }
      rewrite repeats_cons, Hdata in Hrep.
      rewrite all_fit_before_cons. unfold Tokenizer.fits at 1. simpl.
      rewrite Hdata. simpl.
      unfold Tokenizer.labels_of_line. rewrite Hhead.
      match goal with |- _init_profile_lines ?s _ _ = _ => set (self' := s) end.
      assert (Hlen : length (column_labels self') =
                     length (column_labels self) + length (split_on c_tab (strip l))).
      { unfold self'. simpl. by rewrite length_app, length_fmap. }
      rewrite (IH self' (lc + 1) d Hrep).
      * rewrite Hlen. by replace (lc + 1 + d + 1) with (lc + S d + 1) by lia.
      * intros m Hm. specialize (Hfirst (S m) ltac:(lia)).
        by rewrite repeats_cons, Hdata in Hfirst.
    + (* data row *)
      fold (line_tokens l).
      assert (Hg : ∃ tokens0, line_tokens l !! 0 = Some tokens0 ∧
                               line_grapheme l = strip tokens0).
      { unfold Tokenizer.line_grapheme.
        destruct (line_tokens l) as [|t0 ts] eqn:Ht.
        - by apply split_on_nonempty in Ht.
        - by exists t0. }
      destruct Hg as (tokens0 & Ht0 & Hg).
      unfold getitem at 1. rewrite Ht0. cbn [bind]. rewrite <- Hg.
      destruct (op_graphemes self !! line_grapheme l) as [v|] eqn:Hseen.
      * (* the grapheme was seen before *)
        rewrite bool_decide_eq_false_2 by done. cbn [bind].
        destruct d as [|d]; [by rewrite all_fit_before_0, Nat.add_0_r|].
        specialize (Hfirst 0 ltac:(lia)).
        rewrite repeats_0, Hdata, Hseen in Hfirst. done.
      * rewrite bool_decide_eq_true_2 by done. cbn [bind].
        destruct d as [|d].
        { rewrite repeats_0, Hdata, Hseen in Hrep. done. }
        rewrite repeats_cons, Hdata in Hrep.
        assert (Hfirst' : ∀ m, m < d →
                  repeats (<[line_grapheme l := 1]> (op_graphemes self)) rest m = false).
        { intros m Hm. specialize (Hfirst (S m) ltac:(lia)).
          by rewrite repeats_cons, Hdata in Hfirst. }
        assert (Hlab : labels_of_line l = 0).
        { unfold Tokenizer.labels_of_line. by rewrite Hhead. }
        rewrite all_fit_before_cons, Hlab, Nat.add_0_r.
        unfold Tokenizer.fits at 1. simpl. rewrite Hdata. simpl.
        unfold Tokenizer.declared_labels. simpl. rewrite Nat.add_0_r.
        match goal with
        | |- context [_init_profile_columns _ _ _ ?s] => set (self1 := s)
        end.
        destruct (decide (length (line_tokens l) = 1)) as [Hone|Hmany].
        -- rewrite !(bool_decide_eq_true_2 _ Hone). simpl.
           rewrite (IH self1 (lc + 1) d Hrep Hfirst'). simpl.
           by replace (lc + 1 + d + 1) with (lc + S d + 1) by lia.
        -- rewrite !(bool_decide_eq_false_2 _ Hmany). simpl.
           destruct (decide (length (line_tokens l) ≤ length (column_labels self)))
             as [Hle|Hgt].
           ++ rewrite (bool_decide_eq_true_2 _ Hle).
              destruct (_init_profile_columns_ok (line_grapheme l) (line_tokens l)
                          (length (line_tokens l)) 0 self1)
                as (self2 & -> & Hg2 & Hc2); [lia|simpl; lia|].
              cbn [bind].
              rewrite (IH self2 (lc + 1) d); rewrite ?Hg2, ?Hc2; [|done|done].
              simpl. by replace (lc + 1 + d + 1) with (lc + S d + 1) by lia.
           ++ rewrite (bool_decide_eq_false_2 _ Hgt).
              rewrite _init_profile_columns_raise; [done|lia|simpl; lia].
Qed.

Lemma first_repeat_from_spec seen lines n :
  ∀ d0 j,
    d0 ≤ j < d0 + n →
    repeats seen lines j = true →
    (∀ m, m < d0 → repeats seen lines m = false) →
    ∃ d, first_repeat_from seen lines d0 n = Some d ∧ d ≤ j ∧
         repeats seen lines d = true ∧
         ∀ m, m < d → repeats seen lines m = false.
Proof.
  induction n as [|n IH]; intros d0 j Hj Hrep Hbefore; [lia|].
  simpl. destruct (repeats seen lines d0) eqn:Hd0.
  - exists d0. split_and!; [done|lia|done|done].
  - apply (IH (d0 + 1) j); [|done|].
    + destruct (decide (j = d0)) as [->|]; [congruence|lia].
    + intros m Hm. destruct (decide (m = d0)) as [->|]; [done|]. apply Hbefore. lia.
Qed.

Lemma repeats_pair lines i j l1 l2 :
  i < j → lines !! i = Some l1 → lines !! j = Some l2 →
  data_line l1 = true → data_line l2 = true →
  line_grapheme l1 = line_grapheme l2 →
  repeats ∅ lines j = true.
Proof.
  intros Hij Hi Hj Hd1 Hd2 Hg. unfold Tokenizer.repeats.
  rewrite Hj, Hd2. simpl. apply orb_true_iff. right.
  apply existsb_exists. exists l1. split.
  - apply list_elem_of_In, list_elem_of_lookup. exists i.
    by rewrite lookup_take_lt.
  - rewrite Hd1. simpl. by apply bool_decide_eq_true_2.
Qed.

Local Abbreviation __init__ := (__init__ NFD lower re_compile).

(** C2 (as amended): when two data rows (lines that are not blank, not
    comments and do not start with "graphemes") have the same NFD
    grapheme, construction always fails, whatever the rows' other fields
    hold.  The error is the duplicate error carrying the line number
    [d + 1] of the first data row [d] (0-based) whose grapheme repeats an
    earlier one, provided no data row before it has more than one field
    and more fields than the column labels declared so far
    ([all_fit_before]); otherwise the exception is an IndexError. *)
Theorem C2_duplicate_grapheme_fails ortho_path lines rules i j l1 l2 :
  i < j → lines !! i = Some l1 → lines !! j = Some l2 →
  data_line l1 = true → data_line l2 = true →
  line_grapheme l1 = line_grapheme l2 →
  ∃ d, first_repeat lines = Some d ∧ d ≤ j ∧
       __init__ ortho_path (Some lines) rules =
         Raise (if all_fit_before 0 lines d
                then DuplicateGrapheme (d + 1) else IndexError).
Proof.
  intros Hij Hi Hj Hd1 Hd2 Hg.
  pose proof (repeats_pair lines i j l1 l2 Hij Hi Hj Hd1 Hd2 Hg) as Hrep.
  apply lookup_lt_Some in Hj.
  destruct (first_repeat_from_spec ∅ lines (length lines) 0 j)
    as (d & Hd & Hle & Hrepd & Hfirst); [lia|done|lia|].
  exists d. split_and!; [done|done|].
  unfold Tokenizer.__init__.
  destruct (TrieFacts.__init___total NFD lower lines) as [root ->]. cbn [bind].
  unfold Tokenizer._init_profile.
  rewrite (_init_profile_lines_repeat lines
             (mkTokenizer (Some (ortho_path ++ py ".prf")) root [] ∅ ∅ None [] [])
             0 d Hrepd Hfirst).
  done.
Qed.

End Profile.

Lemma C2_duplicate_grapheme_fails_witness :
  1 < 3 ∧
  Sample.profile_dup !! 1 = Some (Sample.row ["a"; "x"]%string) ∧
  Sample.profile_dup !! 3 = Some (Sample.row ["a"; "w"]%string) ∧
  data_line Sample.lower_ascii (Sample.row ["a"; "x"]%string) = true ∧
  data_line Sample.lower_ascii (Sample.row ["a"; "w"]%string) = true ∧
  line_grapheme Sample.NFD_ascii (Sample.row ["a"; "x"]%string) =
    line_grapheme Sample.NFD_ascii (Sample.row ["a"; "w"]%string) ∧
  ∃ d, first_repeat Sample.NFD_ascii Sample.lower_ascii Sample.profile_dup = Some d ∧
       d ≤ 3 ∧
       Sample.new_Tokenizer (py "p") (Some Sample.profile_dup) None =
         Raise (if all_fit_before Sample.NFD_ascii Sample.lower_ascii 0
                     Sample.profile_dup d
                then DuplicateGrapheme (d + 1) else IndexError).
Proof.
  split; [lia|]. do 5 (split; [reflexivity|]).
  apply (C2_duplicate_grapheme_fails Sample.NFD_ascii Sample.lower_ascii
           Sample.lit_compile (py "p") Sample.profile_dup None 1 3
           (Sample.row ["a"; "x"]%string) (Sample.row ["a"; "w"]%string));
    [lia|reflexivity..].
Defined.

(** The line number reported is that of the repeating row. *)
Example duplicate_reports_line_4 :
  Sample.new_Tokenizer (py "p") (Some Sample.profile_dup) None
  = Raise (DuplicateGrapheme 4).
Proof. by vm_compute. Qed.

(** C2, counterexample: rows 2 and 3 declare the same grapheme [a], but
    row 2 has three fields under a two-column header, and construction
    fails with an IndexError that names no line. *)
Lemma C2_duplicate_grapheme_counterexample :
  Sample.profile_dup_ragged !! 1 = Some (Sample.row ["a"; "x"; "y"]%string) ∧
  Sample.profile_dup_ragged !! 2 = Some (Sample.row ["a"; "z"]%string) ∧
  data_line Sample.lower_ascii (Sample.row ["a"; "x"; "y"]%string) = true ∧
  data_line Sample.lower_ascii (Sample.row ["a"; "z"]%string) = true ∧
  line_grapheme Sample.NFD_ascii (Sample.row ["a"; "x"; "y"]%string) =
    line_grapheme Sample.NFD_ascii (Sample.row ["a"; "z"]%string) ∧
  Sample.new_Tokenizer (py "p") (Some Sample.profile_dup_ragged) None
    = Raise IndexError ∧
  ∀ n, Sample.new_Tokenizer (py "p") (Some Sample.profile_dup_ragged) None
       ≠ Raise (DuplicateGrapheme n).
Proof.
  split_and!; [reflexivity..|by vm_compute|].
  intros n. by vm_compute.
Qed.

End ProfileFacts.

(** * Properties of tokenization and column remapping *)

Module TokenizeFacts.
Import Tokenizer.

Section Transform.

Variable NFD : str → str.
Context {pattern : Type}.
Variable grapheme_pattern_findall : str → list str.

Local Abbreviation Tokenizer := (Tokenizer pattern).
Local Abbreviation graphemes := (graphemes NFD grapheme_pattern_findall (pattern:=pattern)).
Local Abbreviation transform := (transform NFD grapheme_pattern_findall (pattern:=pattern)).



End Transform.


(** With [a -> x] and [b -> NULL] in column [ipa]: [b] is dropped, "#"
    and "?" stay; an undeclared column gives the plain segmentation. *)
Example transform_ipa :
  Sample.graphemes (Sample.load (Some Sample.profile_ipa) None) (py "ab ba?")
    = py "a b # b a ?" ∧
  Sample.transform (Sample.load (Some Sample.profile_ipa) None) (py "ab ba?") (py "ipa")
    = Ok (py "x # x ?") ∧
  Sample.transform (Sample.load (Some Sample.profile_ipa) None) (py "ab ba?") (py "foo")
    = Ok (py "a b # b a ?").
Proof. split_and!; by vm_compute. Qed.

(** C5 (as amended): with a profile declaring the graphemes "uu", "b"
    and "o", the words of "uubo uubo" parse to "# uu b o #" each, and
    [graphemes] returns "uu b o # uu b o": the concatenation
    "# uu b o ## uu b o #" with "##" collapsed and the outer markers
    stripped. *)
Theorem C5_graphemes_uubo :
  Tokenizer.graphemes_word Sample.NFD_ascii (Sample.load (Some Sample.profile_uu_b_o) None) <$>
    split (py "uubo uubo") = [py "# uu b o #"; py "# uu b o #"] ∧
  Sample.load_and_graphemes Sample.profile_uu_b_o (py "uubo uubo")
    = Ok (py "uu b o # uu b o").
Proof. split; by vm_compute. Qed.

(** C5, counterexample: with "uu" as the only grapheme neither word
    parses ("b" and "o" are not in the trie), and every character is
    reported as missing. *)
Lemma C5_graphemes_uubo_counterexample :
  Tree.parse (tree (Sample.load (Some Sample.profile_uu) None)) (py "uubo") = [] ∧
  Sample.load_and_graphemes Sample.profile_uu (py "uubo uubo")
    = Ok (py "? ? ? ? ? ? ? ?") ∧
  Sample.load_and_graphemes Sample.profile_uu (py "uubo uubo")
    ≠ Ok (py "uu b o # uu b o").
Proof. split_and!; by vm_compute. Qed.

End TokenizeFacts.

(** * Properties of rules loading and of the rule engine *)

Module RulesFacts.
Import Tokenizer.

Section Rules.

Variable NFD : str → str.
Variable lower : str → str.
Context {pattern : Type}.
Variable re_compile : str → option pattern.
Variable re_search : pattern → str → bool.
Variable re_sub : pattern → str → str → option str.

Local Abbreviation Tokenizer := (Tokenizer pattern).
Local Abbreviation two_fields := (two_fields NFD).
Local Abbreviation _init_rules_line := (_init_rules_line NFD re_compile).
Local Abbreviation _init_rules_lines := (_init_rules_lines NFD re_compile).
Local Abbreviation _init_rules := (_init_rules NFD re_compile).
Local Abbreviation __init__ := (__init__ NFD lower re_compile).
Local Abbreviation rules_loop := (rules_loop re_search re_sub).
Local Abbreviation rules := (rules NFD re_search re_sub).
Local Abbreviation apply_in_sequence := (apply_in_sequence re_search re_sub).

(** What one line does to the two lists. *)
Lemma _init_rules_line_cases (self : Tokenizer) l :
  (rule_line l = false ∧ _init_rules_line self l = Ok self)
  ∨ (rule_line l = true ∧ two_fields l = false ∧
     _init_rules_line self l = Raise UnpackError)
  ∨ (rule_line l = true ∧ two_fields l = true ∧
     (_init_rules_line self l = Raise ReError
      ∨ ∃ compiled replacement,
          _init_rules_line self l =
            Ok (set_rules (op_rules self ++ [compiled])
                          (op_replacements self ++ [replacement]) self))).
Proof.
  unfold Tokenizer._init_rules_line, rule_line, Tokenizer.two_fields.
  destruct (startswith (strip l) [c_hash] || bool_decide (strip l = [])); simpl;
    [by left|right].
  destruct (split_on c_comma (NFD (strip l))) as [|rule [|replacement [|x fields]]];
    [left; by rewrite bool_decide_eq_false_2
    |left; by rewrite bool_decide_eq_false_2
    |right
    |left; by rewrite bool_decide_eq_false_2].
  rewrite bool_decide_eq_true_2 by done. split_and!; [done..|].
  destruct (re_compile (strip rule)) as [compiled|]; simpl; [right|by left].
  by exists compiled, (strip replacement).
Qed.

(** The loop keeps the two lists in lockstep: one element each per rule
    line; it raises only from unpacking or from [re.compile]. *)
Lemma _init_rules_lines_lockstep lines :
  ∀ self : Tokenizer,
    match _init_rules_lines self lines with
    | Ok self' =>
        Forall (fun l => rule_line l = true → two_fields l = true) lines ∧
        length (op_rules self') =
          length (op_rules self) + length (List.filter rule_line lines) ∧
        length (op_replacements self') =
          length (op_replacements self) + length (List.filter rule_line lines)
    | Raise e => e = UnpackError ∨ e = ReError
    end.
Proof.
  induction lines as [|l lines IH]; intros self; cbn [Tokenizer._init_rules_lines].
  { split_and!; [constructor|simpl; lia..]. }
  destruct (_init_rules_line_cases self l)
    as [[Hr ->]|[(Hr & Ht & ->)|(Hr & Ht & [->|(c & r & ->)])]]; cbn [bind];
    [|by left|by right|].
  - specialize (IH self). destruct (_init_rules_lines self lines); [|done].
    destruct IH as (HF & H1 & H2). cbn [List.filter]. rewrite Hr.
    split_and!; [|done..]. constructor; [congruence|done].
  - specialize (IH (set_rules (op_rules self ++ [c]) (op_replacements self ++ [r]) self)).
    destruct (_init_rules_lines _ lines); [|done].
    destruct IH as (HF & H1 & H2). cbn [List.filter]. rewrite Hr.
    simpl in H1, H2. rewrite length_app in H1, H2. simpl in *.
    split_and!; [by constructor|lia..].
Qed.

Lemma filter_two_fields_length lines :
  Forall (fun l => rule_line l = true → two_fields l = true) lines →
  length (List.filter rule_line lines) =
  length (List.filter (fun l => rule_line l && two_fields l) lines).
Proof.
  induction 1 as [|l lines Hl _ IH]; [done|]. cbn [List.filter].
  destruct (rule_line l); simpl; [|done].
  rewrite Hl by done. simpl. by rewrite IH.
Qed.

(** C7: the rule lines are the patterns; a rule line carries a usable
    replacement when it splits into exactly two comma-separated fields.
    When the two counts differ, [_init_rules] raises, and with it the
    construction of the tokenizer. *)
Theorem C7_rules_count_mismatch_fails lines :
  length (List.filter rule_line lines) ≠
    length (List.filter (fun l => rule_line l && two_fields l) lines) →
  (∀ self : Tokenizer, ∃ e, _init_rules self lines = Raise e) ∧
  (∀ ortho_path prf, ∃ e, __init__ ortho_path prf (Some lines) = Raise e).
Proof.
  intros Hne.
  assert (Hrules : ∀ self : Tokenizer, ∃ e, _init_rules self lines = Raise e).
  { intros self. unfold Tokenizer._init_rules.
    pose proof (_init_rules_lines_lockstep lines self) as H.
    destruct (_init_rules_lines self lines) as [self'|e]; [|by exists e].
    destruct H as (HF & _). by apply filter_two_fields_length in HF. }
  split; [done|]. intros ortho_path prf. unfold Tokenizer.__init__.
  match goal with |- ∃ e, bind ?r _ = _ => destruct r as [self|e] end;
    cbn [bind]; [apply Hrules|by exists e].
Qed.

(** C9: started with lists of equal length (both empty in [__init__]),
    [_init_rules] never raises the count-mismatch error; when it returns,
    the lists have equal length, one element per rule line, and every
    rule line has exactly two fields; a rule line with another number of
    fields makes the loop raise, from unpacking or, at an earlier line,
    from [re.compile]. *)
Theorem C9_rules_lists_lockstep (self : Tokenizer) lines :
  length (op_rules self) = length (op_replacements self) →
  _init_rules self lines ≠ Raise RulesCountMismatch ∧
  (∀ self', _init_rules self lines = Ok self' →
     length (op_rules self') = length (op_replacements self') ∧
     length (op_rules self') =
       length (op_rules self) + length (List.filter rule_line lines) ∧
     Forall (fun l => rule_line l = true → two_fields l = true) lines) ∧
  (∀ l, l ∈ lines → rule_line l = true → two_fields l = false →
     ∃ e, _init_rules self lines = Raise e ∧ (e = UnpackError ∨ e = ReError)).
Proof.
  intros Hlen. unfold Tokenizer._init_rules.
  pose proof (_init_rules_lines_lockstep lines self) as H.
  destruct (_init_rules_lines self lines) as [self'|e]; cbn [bind].
  - destruct H as (HF & H1 & H2).
    assert (Heq : length (op_rules self') = length (op_replacements self')) by lia.
    rewrite bool_decide_eq_false_2 by (intros Hn; by apply Hn).
    split_and!; [done| |].
    + intros ? [= <-]. done.
    + intros l Hl Hr Ht. rewrite Forall_forall in HF.
      apply list_elem_of_In in Hl. specialize (HF l Hl Hr). congruence.
  - split_and!; [by destruct H as [-> | ->]|done|].
    intros l _ _ _. by exists e.
Qed.

(** The loop of [rules] applies the rules one after the other. *)
Lemma rules_loop_apply_in_sequence (self : Tokenizer) n :
  length (op_rules self) = length (op_replacements self) →
  ∀ a acc,
    a + n = length (op_rules self) →
    rules_loop self (seq a n) acc =
    apply_in_sequence (drop a (zip (op_rules self) (op_replacements self))) acc.
Proof.
  intros Hlen. induction n as [|n IH]; intros a acc Ha.
  { rewrite drop_ge; [done|]. rewrite length_zip_with. lia. }
  cbn [seq Tokenizer.rules_loop]. unfold getitem.
  destruct (op_rules self !! a) as [rule|] eqn:Hrule;
    [|apply lookup_ge_None in Hrule; lia].
  destruct (op_replacements self !! a) as [replacement|] eqn:Hrep;
    [|apply lookup_ge_None in Hrep; lia].
  rewrite (drop_S _ (rule, replacement) a).
  2:{ rewrite lookup_zip_with, Hrule. simpl. by rewrite Hrep. }
  cbn [bind Tokenizer.apply_in_sequence].
  destruct (re_search rule acc); [|apply IH; lia].
  destruct (re_sub rule replacement acc) as [acc'|]; simpl; [apply IH; lia|done].
Qed.

Lemma rules_apply_in_sequence (self : Tokenizer) string :
  (orthography_profile_rules self = None → rules self string = Ok string) ∧
  (is_Some (orthography_profile_rules self) →
   length (op_rules self) = length (op_replacements self) →
   rules self string =
     let! result := apply_in_sequence (zip (op_rules self) (op_replacements self))
                      (NFD string) in
     Ok (NFD result)).
Proof.
  unfold Tokenizer.rules. split.
  - by intros ->.
  - intros [path ->] Hlen.
    by rewrite (rules_loop_apply_in_sequence self _ Hlen 0).
Qed.

End Rules.

Lemma C7_rules_count_mismatch_fails_witness :
  length (List.filter rule_line Sample.rules_3_2) = 3 ∧
  length (List.filter (fun l => rule_line l && two_fields Sample.NFD_ascii l)
            Sample.rules_3_2) = 2 ∧
  (∀ self : Sample.Tokenizer,
     ∃ e, _init_rules Sample.NFD_ascii Sample.lit_compile self Sample.rules_3_2 = Raise e) ∧
  (∀ ortho_path prf,
     ∃ e, Sample.new_Tokenizer ortho_path prf (Some Sample.rules_3_2) = Raise e).
Proof.
  split; [reflexivity|]. split; [reflexivity|].
  apply (C7_rules_count_mismatch_fails Sample.NFD_ascii Sample.lower_ascii
           Sample.lit_compile Sample.rules_3_2).
  vm_compute. lia.
Defined.

Example rules_3_2_unpack_error :
  Sample.new_Tokenizer (py "p") None (Some Sample.rules_3_2) = Raise UnpackError.
Proof. by vm_compute. Qed.

Lemma C9_rules_lists_lockstep_witness :
  length (op_rules (Sample.load None None)) =
    length (op_replacements (Sample.load None None)) ∧
  _init_rules Sample.NFD_ascii Sample.lit_compile (Sample.load None None)
    Sample.rules_A_B_C ≠ Raise RulesCountMismatch ∧
  (∀ self', _init_rules Sample.NFD_ascii Sample.lit_compile (Sample.load None None)
              Sample.rules_A_B_C = Ok self' →
     length (op_rules self') = length (op_replacements self') ∧
     length (op_rules self') =
       length (op_rules (Sample.load None None)) +
       length (List.filter rule_line Sample.rules_A_B_C) ∧
     Forall (fun l => rule_line l = true → two_fields Sample.NFD_ascii l = true)
       Sample.rules_A_B_C) ∧
  (∀ l, l ∈ Sample.rules_A_B_C → rule_line l = true →
        two_fields Sample.NFD_ascii l = false →
     ∃ e, _init_rules Sample.NFD_ascii Sample.lit_compile (Sample.load None None)
            Sample.rules_A_B_C = Raise e ∧ (e = UnpackError ∨ e = ReError)).
Proof.
  split; [reflexivity|].
  apply (C9_rules_lists_lockstep Sample.NFD_ascii Sample.lit_compile
           (Sample.load None None) Sample.rules_A_B_C).
  reflexivity.
Defined.

Example rules_A_B_C_loaded :
  op_rules (Sample.load None (Some Sample.rules_A_B_C)) = [py "A"; py "B"] ∧
  op_replacements (Sample.load None (Some Sample.rules_A_B_C)) = [py "B"; py "C"].
Proof. split; by vm_compute. Qed.

(** C3: without a rules file [rules] is the identity; with one (the two
    lists having one entry per rule) it normalizes the input, applies
    the rules in order, each to the result of the one before, and
    normalizes the final result.  With the rules A -> B, B -> C the input
    "A" gives "C", not "B". *)
Theorem C3_rules_in_sequence :
  (∀ (NFD : str → str) (pattern : Type) (re_search : pattern → str → bool)
     (re_sub : pattern → str → str → option str) (self : Tokenizer pattern) string,
     (orthography_profile_rules self = None →
      rules NFD re_search re_sub self string = Ok string) ∧
     (is_Some (orthography_profile_rules self) →
      length (op_rules self) = length (op_replacements self) →
      rules NFD re_search re_sub self string =
        let! result := apply_in_sequence re_search re_sub
                         (zip (op_rules self) (op_replacements self)) (NFD string) in
        Ok (NFD result))) ∧
  Sample.load_and_rules Sample.rules_A_B_C (py "A") = Ok (py "C") ∧
  Sample.load_and_rules Sample.rules_A_B_C (py "A") ≠ Ok (py "B").
Proof.
  split_and!; [|by vm_compute..].
  intros. apply rules_apply_in_sequence.
Qed.

End RulesFacts.

(** * Properties of combine_modifiers *)

Module ModifierFacts.
Import Tokenizer.

Lemma split_ws_go_nonempty s :
  ∀ cur, Forall (fun field : str => field ≠ []) (split_ws_go cur s).
Proof.
  assert (Hrev : ∀ cur : str, cur ≠ [] → reverse cur ≠ []).
  { intros cur Hcur Hr. apply (f_equal length) in Hr.
    rewrite length_reverse in Hr. by destruct cur. }
  induction s as [|c s IH]; intros cur; simpl.
  - destruct (decide (cur = [])); [constructor|]. constructor; [by apply Hrev|constructor].
  - destruct (isspace c); [|apply IH].
    apply Forall_app. split; [|apply IH].
    destruct (decide (cur = [])); [constructor|]. constructor; [by apply Hrev|constructor].
Qed.

Lemma split_nonempty s : Forall (fun field : str => field ≠ []) (split s).
Proof. apply split_ws_go_nonempty. Qed.

Lemma leading_tie_run_le l : leading_tie_run l ≤ length l.
Proof.
  induction l as [|s l IH]; simpl; [lia|]. destruct (ends_in_tie_bar s); lia.
Qed.

Lemma leading_tie_run_snoc l s :
  leading_tie_run (l ++ [s]) =
  if decide (leading_tie_run l = length l)
  then (if ends_in_tie_bar s then S (leading_tie_run l) else leading_tie_run l)
  else leading_tie_run l.
Proof.
  induction l as [|x l IH]; simpl.
  - by destruct (ends_in_tie_bar s).
  - destruct (ends_in_tie_bar x); [|done]. rewrite IH.
    pose proof (leading_tie_run_le l).
    destruct (decide (leading_tie_run l = length l)), (ends_in_tie_bar s);
      destruct (decide (S (leading_tie_run l) = S (length l))); try done; lia.
Qed.

Lemma trailing_tie_run_le segments : trailing_tie_run segments ≤ length segments.
Proof.
  unfold trailing_tie_run. rewrite <- (length_reverse segments).
  apply leading_tie_run_le.
Qed.

Lemma trailing_tie_run_cons s segments :
  trailing_tie_run (s :: segments) =
  if decide (trailing_tie_run segments = length segments)
  then (if ends_in_tie_bar s then S (trailing_tie_run segments)
        else trailing_tie_run segments)
  else trailing_tie_run segments.
Proof.
  unfold trailing_tie_run. rewrite reverse_cons, leading_tie_run_snoc.
  by rewrite length_reverse.
Qed.

(** Past a pair the length of the trailing run keeps its parity. *)
Lemma trailing_tie_run_pair s s' segments :
  ends_in_tie_bar s = true →
  Nat.odd (trailing_tie_run (s :: s' :: segments)) =
  Nat.odd (trailing_tie_run segments).
Proof.
  intros Hs. rewrite (trailing_tie_run_cons s), (trailing_tie_run_cons s'), Hs.
  pose proof (trailing_tie_run_le segments). simpl.
  destruct (decide (trailing_tie_run segments = length segments)) as [He|Hn].
  - destruct (ends_in_tie_bar s').
    + rewrite decide_True by lia. done.
    + rewrite decide_False by lia. done.
  - rewrite decide_False by lia. done.
Qed.

Lemma trailing_tie_run_skip s segments :
  ends_in_tie_bar s = false →
  trailing_tie_run (s :: segments) = trailing_tie_run segments.
Proof.
  intros Hs. rewrite trailing_tie_run_cons, Hs.
  by destruct (decide (trailing_tie_run segments = length segments)).
Qed.

(** The tie-bar pass raises exactly when the run of tie-bar segments at
    the end has odd length. *)
Lemma tie_bar_loop_outcome n :
  ∀ segments r,
    length segments ≤ n →
    Forall (fun segment : str => segment ≠ []) segments →
    if Nat.odd (trailing_tie_run segments)
    then tie_bar_loop segments r = Raise IndexError
    else ∃ r', tie_bar_loop segments r = Ok r'.
Proof.
  induction n as [|n IH]; intros segments r Hn Hne.
  { destruct segments; [|simpl in Hn; lia]. simpl. eauto. }
  destruct segments as [|s rest]; [simpl; eauto|].
  inversion Hne as [|? ? Hs Hrest]; subst.
  cbn [tie_bar_loop].
  pose proof (eq_refl : ends_in_tie_bar s = ends_in_tie_bar s) as Htie.
  unfold ends_in_tie_bar in Htie at 2.
  destruct (list.last s) as [c|] eqn:Hlast.
  2:{ apply last_None in Hlast. done. }
  destruct (bool_decide (c ∈ tie_bars)).
  - destruct rest as [|s' rest'].
    + by rewrite trailing_tie_run_cons, Htie.
    + rewrite (trailing_tie_run_pair s s' rest' Htie).
      inversion Hrest; subst. apply IH; [simpl in Hn; lia|done].
  - rewrite (trailing_tie_run_skip s rest Htie).
    apply IH; [simpl in Hn; lia|done].
Qed.

Section Combine.

Variable category : char → str.

Local Abbreviation is_modifier := (is_modifier category).
Local Abbreviation combine_loop := (combine_loop category).
Local Abbreviation combine_modifiers := (combine_modifiers category).

(** When every grapheme is a modifier letter, the merge at [count == 0]
    finds [result] empty. *)
Lemma combine_loop_all_modifiers rev_graphemes :
  rev_graphemes ≠ [] →
  Forall (fun g => is_modifier g = true) rev_graphemes →
  ∀ temp, combine_loop rev_graphemes (length rev_graphemes) temp [] = Raise IndexError.
Proof.
  induction rev_graphemes as [|g rest IH]; intros Hne Hall temp; [done|].
  inversion Hall as [|? ? Hg Hrest]; subst.
  cbn [Tokenizer.combine_loop length]. rewrite Hg.
  replace (S (length rest) - 1) with (length rest) by lia.
  case_bool_decide as Hz.
  - destruct rest; [done|simpl in Hz; lia].
  - apply IH; [by intros ->|done].
Qed.

(** Without modifier letters the first loop copies the graphemes. *)
Lemma combine_loop_no_modifiers rev_graphemes :
  Forall (fun g => is_modifier g = false) rev_graphemes →
  ∀ count result,
    combine_loop rev_graphemes count [] result = Ok (result ++ rev_graphemes).
Proof.
  induction 1 as [|g rest Hg _ IH]; intros count result;
    cbn [Tokenizer.combine_loop].
  - by rewrite app_nil_r.
  - rewrite Hg, IH, app_nil_r. by rewrite <- app_assoc.
Qed.

Lemma prepend_to_last_nonempty temp result result' :
  prepend_to_last temp result = Ok result' →
  temp ≠ [] →
  Forall (fun segment : str => segment ≠ []) result →
  Forall (fun segment : str => segment ≠ []) result'.
Proof.
  unfold prepend_to_last. destruct (list.last result) as [x|]; [|done].
  intros [= <-] Htemp Hres. apply Forall_app. split.
  - by apply Forall_take.
  - constructor; [by destruct temp|constructor].
Qed.

(** The segments the first loop produces are not empty. *)
Lemma combine_loop_nonempty rev_graphemes :
  Forall (fun g : str => g ≠ []) rev_graphemes →
  ∀ count temp result result',
    combine_loop rev_graphemes count temp result = Ok result' →
    Forall (fun segment : str => segment ≠ []) result →
    Forall (fun segment : str => segment ≠ []) result'.
Proof.
  induction 1 as [|g rest Hg _ IH]; intros count temp result result';
    cbn [Tokenizer.combine_loop].
  - by intros [= <-].
  - destruct (is_modifier g).
    + case_bool_decide.
      * destruct (prepend_to_last (g ++ temp) result) as [result1|] eqn:Hp;
          cbn [bind]; [|done].
        intros Hloop Hres. eapply IH; [exact Hloop|].
        eapply prepend_to_last_nonempty; [exact Hp|by destruct g|done].
      * apply IH.
    + intros Hloop Hres. eapply IH; [exact Hloop|].
      apply Forall_app. split; [done|]. constructor; [by destruct g|constructor].
Qed.

(** C10 (as amended): [combine_modifiers] raises an IndexError (1) when
    the input has segments and each is a single modifier letter, in
    particular (2) when it is one such segment; (3) in general, when the
    first loop returns, exactly when the run of segments ending in a tie
    bar at the end of the merged segments has odd length; (4) for an
    input without modifier-letter segments, exactly when that run at the
    end of the input has odd length.  With an even run the last segment
    is the second half of a pair and the call returns. *)
Theorem C10_combine_modifiers_partial :
  (∀ string,
     split string ≠ [] → Forall (fun g => is_modifier g = true) (split string) →
     combine_modifiers string = Raise IndexError) ∧
  (∀ string c,
     split string = [[c]] → category c = py "Lm" →
     combine_modifiers string = Raise IndexError) ∧
  (∀ string result,
     combine_loop (reverse (split string)) (length (split string)) [] [] = Ok result →
     if Nat.odd (trailing_tie_run (reverse result))
     then combine_modifiers string = Raise IndexError
     else ∃ r, combine_modifiers string = Ok r) ∧
  (∀ string,
     Forall (fun g => is_modifier g = false) (split string) →
     if Nat.odd (trailing_tie_run (split string))
     then combine_modifiers string = Raise IndexError
     else ∃ r, combine_modifiers string = Ok r).
Proof.
  assert (Hall : ∀ string,
     split string ≠ [] → Forall (fun g => is_modifier g = true) (split string) →
     combine_modifiers string = Raise IndexError).
  { intros string Hne Hmod. unfold Tokenizer.combine_modifiers.
    rewrite <- (length_reverse (split string)).
    rewrite combine_loop_all_modifiers; [done| |by apply Forall_reverse].
    intros Hr. apply (f_equal length) in Hr. rewrite length_reverse in Hr.
    by destruct (split string). }
  assert (Hgen : ∀ string result,
     combine_loop (reverse (split string)) (length (split string)) [] [] = Ok result →
     if Nat.odd (trailing_tie_run (reverse result))
     then combine_modifiers string = Raise IndexError
     else ∃ r, combine_modifiers string = Ok r).
  { intros string result Hloop. unfold Tokenizer.combine_modifiers.
    rewrite Hloop. cbn [bind].
    assert (Hne : Forall (fun segment : str => segment ≠ []) (reverse result)).
    { apply Forall_reverse.
      eapply combine_loop_nonempty; [|exact Hloop|constructor].
      apply Forall_reverse, split_nonempty. }
    pose proof (tie_bar_loop_outcome (length (reverse result)) (reverse result) []
                  (le_n _) Hne) as Hout.
    destruct (Nat.odd (trailing_tie_run (reverse result))).
    - by rewrite Hout.
    - destruct Hout as [r' ->]. cbn [bind]. eauto. }
  split_and!; [exact Hall| |exact Hgen|].
  - intros string c Hsplit Hcat. apply Hall; rewrite Hsplit; [done|].
    constructor; [|constructor]. unfold Tokenizer.is_modifier. simpl.
    by rewrite Hcat.
  - intros string Hmod.
    pose proof (Hgen string (reverse (split string))) as H.
    rewrite reverse_involutive in H. apply H.
    rewrite combine_loop_no_modifiers by (by apply Forall_reverse). done.
Qed.

End Combine.

(** A lone modifier letter (U+02B0) and a lone tie-bar segment raise;
    two tie-bar segments in a row are merged and the call returns. *)
Example combine_modifiers_examples :
  Sample.combine_modifiers [688%N] = Raise IndexError ∧
  Sample.combine_modifiers [97%N; 865%N] = Raise IndexError ∧
  Sample.combine_modifiers [97%N; 32%N; 98%N; 860%N] = Raise IndexError ∧
  Sample.combine_modifiers [97%N; 32%N; 688%N; 32%N; 98%N; 865%N; 32%N; 99%N]
    = Ok [97%N; 688%N; 32%N; 98%N; 865%N; 99%N].
Proof. split_and!; by vm_compute. Qed.

(** C10, counterexample: the final segment of "a͡ b͡" ends in the tie bar
    U+0361 (865), and [combine_modifiers] returns "a͡b͡": the final segment
    is taken as [segments[i+1]] of the pair and never indexed past. *)
Lemma C10_combine_modifiers_counterexample :
  list.last (split [97%N; 865%N; 32%N; 98%N; 865%N]) = Some [98%N; 865%N] ∧
  ends_in_tie_bar [98%N; 865%N] = true ∧
  Sample.combine_modifiers [97%N; 865%N; 32%N; 98%N; 865%N]
    = Ok [97%N; 865%N; 98%N; 865%N] ∧
  Sample.combine_modifiers [97%N; 865%N; 32%N; 98%N; 865%N] ≠ Raise IndexError.
Proof. split_and!; by vm_compute. Qed.

End ModifierFacts.

(** * Further properties of the trie and the segmenter *)

Module TrieExtra.
Import Tree TreeFacts TrieFacts.

Lemma addMultigraph_sentinel node g :
  addMultigraph (mkTreeNode (char_ node) (children node) true) g =
  mkTreeNode (char_ (addMultigraph node g)) (children (addMultigraph node g)) true.
Proof. by destruct g. Qed.

(** Inserting a grapheme makes it a sentinel path and changes no other
    path: after [addMultigraph(node, g)] a string ends at a sentinel
    node exactly when it is [g] or did so before. *)
Theorem addMultigraph_insert_lookup node g s :
  terminal (addMultigraph node g) g ∧
  (s ≠ g → terminal (addMultigraph node g) s ↔ terminal node s).
Proof.
  split.
  - apply terminal_addMultigraph. by left.
  - intros Hne. rewrite terminal_addMultigraph. naive_solver.
Qed.

(** Inserting a grapheme that is already in the trie changes nothing:
    a profile row repeated in the file leaves the trie as it is. *)
Theorem addMultigraph_idempotent g :
  ∀ node, addMultigraph (addMultigraph node g) g = addMultigraph node g.
Proof.
  induction g as [|c g IH]; intros node; [done|].
  cbn [addMultigraph children char_ sentinel].
  rewrite lookup_insert_eq. cbn [default from_option id].
  by rewrite IH, insert_insert_eq.
Qed.

(** The trie, as a mapping, does not depend on the order in which two
    graphemes are inserted. *)
Theorem addMultigraph_commute g1 :
  ∀ g2 node,
    addMultigraph (addMultigraph node g1) g2 = addMultigraph (addMultigraph node g2) g1.
Proof.
  induction g1 as [|c1 g1 IH]; intros g2 node.
  { cbn [addMultigraph]. rewrite addMultigraph_sentinel. by destruct g2. }
  destruct g2 as [|c2 g2].
  { cbn [addMultigraph]. done. }
  cbn [addMultigraph children char_ sentinel].
  destruct (decide (c1 = c2)) as [<-|Hne].
  - rewrite !lookup_insert_eq. cbn [default from_option id].
    by rewrite !insert_insert_eq, IH.
  - rewrite lookup_insert_ne by done.
    rewrite (lookup_insert_ne _ c2 c1) by done.
    by rewrite insert_insert_ne by done.
Qed.

Section Init.

Variable NFD : str → str.
Variable lower : str → str.

(** [Tree(filename)] never raises, and the strings that end at a
    sentinel node of the tree are the graphemes of the profile rows and
    the empty string. *)
Theorem tree_init_sentinel_paths lines :
  ∃ root, __init__ NFD lower lines = Ok root ∧
          ∀ s, terminal root s ↔ s ∈ profile_graphemes NFD lower lines ∨ s = [].
Proof.
  destruct (__init___total NFD lower lines) as [root Hroot].
  exists root. split; [done|]. intros s. by apply terminal___init__.
Qed.

(** The segmenter is complete: [parse] succeeds on a word exactly when
    the word is a concatenation of (non-empty) graphemes of the profile. *)
Theorem parse_succeeds_iff_concatenation lines root w :
  __init__ NFD lower lines = Ok root →
  parse root w ≠ [] ↔
  ∃ gs, Forall (fun g => g ≠ [] ∧ g ∈ profile_graphemes NFD lower lines) gs ∧
        concat gs = w.
Proof.
  intros Hinit.
  assert (Hparse : parse root w ≠ [] ↔ _parse root w ≠ []).
  { unfold parse. destruct (decide (_parse root w = [])) as [->|]; [done|].
    split; [done|]. intros _. discriminate. }
  rewrite Hparse, _parse_nonempty_segmentable. unfold segmentable.
  split; intros (gs & Hgs & Hcat); exists gs; (split; [|done]);
    revert Hgs; apply Forall_impl; intros g [Hg Ht]; (split; [done|]).
  - apply (terminal___init__ NFD lower lines root g Hinit) in Ht as [?|?]; done.
  - apply (terminal___init__ NFD lower lines root g Hinit). by left.
Qed.

End Init.

Lemma parse_succeeds_iff_concatenation_witness :
  ∃ root,
    __init__ Sample.NFD_ascii Sample.lower_ascii Sample.profile_uu_b_o = Ok root ∧
    (parse root (py "uubo") ≠ [] ↔
     ∃ gs, Forall (fun g => g ≠ [] ∧
                     g ∈ profile_graphemes Sample.NFD_ascii Sample.lower_ascii
                           Sample.profile_uu_b_o) gs ∧
           concat gs = py "uubo").
Proof.
  eexists. split; [vm_compute; reflexivity|].
  apply (parse_succeeds_iff_concatenation Sample.NFD_ascii Sample.lower_ascii
           Sample.profile_uu_b_o).
  vm_compute. reflexivity.
Defined.

(** A word whose first character has no child at the root cannot be
    parsed: the loop breaks at once and [parse] returns the empty
    string. *)
Theorem parse_unknown_first_character root c w :
  children root !! c = None →
  _parse root (c :: w) = [] ∧ parse root (c :: w) = [].
Proof.
  intros Hc.
  assert (H : _parse root (c :: w) = []).
  { destruct (decide (_parse root (c :: w) = [])) as [|Hne]; [done|].
    apply _parse_nonempty_segmentable in Hne as (gs & Hgs & Hcat).
    destruct gs as [|g gs]; [done|].
    inversion Hgs as [|? ? [Hg Ht] _]; subst.
    destruct g as [|c' g]; [done|]. simpl in Hcat. injection Hcat as -> _.
    apply terminal_cons in Ht as (child & Hchild & _). congruence. }
  split; [done|]. unfold parse. by rewrite H.
Qed.

Lemma parse_unknown_first_character_witness :
  children Sample.root_a_ab_bc !! 120%N = None ∧
  _parse Sample.root_a_ab_bc (120%N :: py "ab") = [] ∧
  parse Sample.root_a_ab_bc (120%N :: py "ab") = [].
Proof.
  split; [by vm_compute|].
  apply (parse_unknown_first_character Sample.root_a_ab_bc 120%N (py "ab")).
  by vm_compute.
Defined.

(** [_parse] terminates: the recursion is never deeper than the word is
    long, so every bound above [len(line)] yields the same result. *)
Theorem _parse_terminates root line fuel :
  length line < fuel → _parse_fuel fuel root line = Some (_parse root line).
Proof. apply _parse_fuel_total. Qed.

Lemma _parse_terminates_witness :
  length (py "abc") < 4 ∧
  _parse_fuel 4 Sample.root_a_ab_bc (py "abc") = Some (_parse Sample.root_a_ab_bc (py "abc")).
Proof.
  split; [vm_compute; lia|].
  apply (_parse_terminates Sample.root_a_ab_bc (py "abc") 4). vm_compute. lia.
Defined.

End TrieExtra.

(** * Properties of printMultigraphs *)

Module GreedyFacts.
Import Tree TreeFacts TrieFacts.

Section Loop.

Variable root : TreeNode.
Variable line : str.

Lemma marks_step curr last l :
  ¬ sentinel_at root line curr →
  marks root line (curr + 1) last l → marks root line curr last l.
Proof.
  intros Hn [(k & Hk & Hs & Hmax & ->)|[Hnone ->]].
  - left. exists k. split_and!; [lia|done..].
  - right. split; [|done]. intros k Hk Hs.
    destruct (decide (k = curr)) as [->|]; [done|].
    apply (Hnone k); [lia|done].
Qed.

Lemma marks_step_sentinel curr last l :
  sentinel_at root line curr →
  marks root line (curr + 1) curr l → marks root line curr last l.
Proof.
  intros Hs [(k & Hk & Hsk & Hmax & ->)|[Hnone ->]].
  - left. exists k. split_and!; [lia|done..].
  - left. exists curr. split_and!; [lia|done| |done].
    intros k' Hk'. apply Hnone. lia.
Qed.

Lemma printMultigraphs_while_marks n :
  ∀ node curr last,
    walk root (take curr line) = Some node →
    length line - curr < n →
    ∃ l, printMultigraphs_while line n node curr last = Some l ∧
         marks root line curr last l.
Proof.
  induction n as [|n IH]; intros node curr last Hwalk Hn; [lia|].
  cbn [printMultigraphs_while].
  destruct (decide (curr < length line)) as [Hlt|Hge].
  - destruct (line !! curr) as [c|] eqn:Hc;
      [|apply lookup_ge_None in Hc; lia].
    assert (Hstep : walk root (take (S curr) line) = children node !! c).
    { rewrite (take_S_r _ _ _ Hc), walk_app, Hwalk. simpl.
      by destruct (children node !! c). }
    destruct (children node !! c) as [node'|] eqn:Hchild.
    + assert (Hwalk' : walk root (take (curr + 1) line) = Some node').
      { by replace (curr + 1) with (S curr) by lia. }
      destruct (sentinel node') eqn:Hsent.
      * destruct (IH node' (curr + 1) curr Hwalk') as (l & Hl & Hm); [lia|].
        exists l. split; [done|]. apply marks_step_sentinel; [|done].
        split; [done|]. by exists node'.
      * destruct (IH node' (curr + 1) last Hwalk') as (l & Hl & Hm); [lia|].
        exists l. split; [done|]. apply marks_step; [|done].
        intros (_ & node'' & Hw & Hs). congruence.
    + exists last. split; [done|]. right. split; [|done].
      intros k Hk (_ & node'' & Hw & _).
      destruct (walk_take_le root line (S curr) (S k)) as [x Hx]; [lia|eauto|].
      congruence.
  - exists last. split; [done|]. right. split; [|done].
    intros k Hk (Hlt & _). lia.
Qed.

End Loop.

(** The segment the first call cuts off: [line[:k]] is the longest
    prefix ending at a sentinel node, or one character when there is no
    such prefix. *)
Lemma first_cut_spec root line :
  line ≠ [] →
  printMultigraphs_while line (S (length line)) root 0 0 = Some (first_cut root line - 1) ∧
  0 < first_cut root line ≤ length line ∧
  (terminal root (take (first_cut root line) line) ∨ first_cut root line = 1) ∧
  ∀ k', 0 < k' ≤ length line → terminal root (take k' line) → k' ≤ first_cut root line.
Proof.
  intros Hne. unfold first_cut.
  assert (Hnz : length line ≠ 0) by (by destruct line).
  destruct (printMultigraphs_while_marks root line (S (length line)) root 0 0)
    as (l & -> & Hm); [done|lia|].
  cbn [default from_option id].
  replace (l + 1 - 1) with l by lia. split; [done|].
  destruct Hm as [(k & _ & [Hlt Ht] & Hmax & ->)|[Hnone ->]].
  - split_and!; [lia|lia| |].
    + left. by replace (k + 1) with (S k) by lia.
    + intros k' Hk' Ht'. destruct (decide (k' ≤ k + 1)); [done|].
      destruct (Hmax (k' - 1)); [lia|].
      split; [lia|]. by replace (S (k' - 1)) with k' by lia.
  - split_and!; [lia|lia|by right|].
    intros k' Hk' Ht'. destruct (Hnone (k' - 1)); [lia|].
    split; [lia|]. by replace (S (k' - 1)) with k' by lia.
Qed.

Lemma printMultigraphs_fuel_step root line result fuel :
  line ≠ [] →
  printMultigraphs_fuel (S fuel) root line result =
    printMultigraphs_fuel fuel root (drop (first_cut root line) line)
      (result ++ take (first_cut root line) line ++ [c_space]).
Proof.
  intros Hne. cbn [printMultigraphs_fuel].
  destruct (decide (length line = 0)) as [Hz|Hnz]; [by destruct line|].
  destruct (first_cut_spec root line Hne) as (-> & Hk & _).
  cbn [mbind option_bind].
  by replace (first_cut root line - 1 + 1) with (first_cut root line) by lia.
Qed.

(** Enough fuel gives the result. *)
Lemma printMultigraphs_fuel_enough root m :
  ∀ line fuel result,
    length line ≤ m → length line < fuel →
    printMultigraphs_fuel fuel root line result =
      Some (printMultigraphs root line result).
Proof.
  induction m as [|m IH]; intros line fuel result Hm Hfuel.
  - destruct line; [|simpl in Hm; lia]. destruct fuel; [lia|done].
  - destruct (decide (line = [])) as [->|Hne].
    { destruct fuel; [lia|done]. }
    destruct fuel as [|fuel]; [lia|].
    unfold printMultigraphs.
    rewrite !printMultigraphs_fuel_step by done.
    destruct (first_cut_spec root line Hne) as (_ & Hk & _).
    rewrite !IH by (rewrite length_drop; lia). done.
Qed.

Lemma printMultigraphs_nil root result :
  printMultigraphs root [] result = result ++ [c_hash].
Proof. reflexivity. Qed.

Lemma printMultigraphs_step root line result :
  line ≠ [] →
  printMultigraphs root line result =
    printMultigraphs root (drop (first_cut root line) line)
      (result ++ take (first_cut root line) line ++ [c_space]).
Proof.
  intros Hne. unfold printMultigraphs at 1.
  rewrite printMultigraphs_fuel_step by done.
  destruct (first_cut_spec root line Hne) as (_ & Hk & _).
  rewrite (printMultigraphs_fuel_enough root (length line))
    by (rewrite length_drop; lia).
  done.
Qed.

Lemma first_cut_longest_match root line :
  line ≠ [] → longest_match root line (first_cut root line).
Proof.
  intros Hne. destruct (first_cut_spec root line Hne) as (_ & Hk & Ht & Hmax).
  by split.
Qed.

Lemma longest_match_unique root line k1 k2 :
  longest_match root line k1 → longest_match root line k2 → k1 = k2.
Proof.
  intros (Hk1 & Ht1 & Hmax1) (Hk2 & Ht2 & Hmax2).
  assert (k1 ≤ k2) by (destruct Ht1 as [Ht1| ->]; [by apply Hmax2|lia]).
  assert (k2 ≤ k1) by (destruct Ht2 as [Ht2| ->]; [by apply Hmax1|lia]).
  lia.
Qed.

Lemma longest_match_segments_exist root :
  ∀ line, ∃ segments, longest_match_segments root line segments.
Proof.
  intros line. remember (length line) as n eqn:Hn. revert line Hn.
  induction n as [n IH] using lt_wf_ind; intros line Hn.
  destruct (decide (line = [])) as [->|Hne].
  { exists []. constructor. }
  pose proof (first_cut_longest_match root line Hne) as Hk.
  destruct (IH (length (drop (first_cut root line) line)))
    with (line := drop (first_cut root line) line) as [segments Hs].
  - destruct Hk as [? _]. rewrite length_drop. lia.
  - done.
  - exists (take (first_cut root line) line :: segments). by constructor.
Qed.

(** [printMultigraphs] is greedy: it cuts the line into its longest
    matches (at each point the longest prefix of what is left that ends
    at a sentinel node, or a single character when no prefix does) and
    returns [result] followed by these segments, each with a space
    after it, and the closing "#". *)
Theorem printMultigraphs_longest_match root line result :
  (∃ segments, longest_match_segments root line segments) ∧
  ∀ segments,
    longest_match_segments root line segments →
    printMultigraphs root line result =
      result ++ concat ((fun g => g ++ [c_space]) <$> segments) ++ [c_hash].
Proof.
  split; [apply longest_match_segments_exist|].
  intros segments Hs. revert result.
  induction Hs as [|line k segments Hk _ IH]; intros result.
  { by rewrite printMultigraphs_nil. }
  assert (Hne : line ≠ []).
  { destruct Hk as [Hk _]. intros ->. simpl in Hk. lia. }
  rewrite printMultigraphs_step by done.
  rewrite (longest_match_unique root line _ _ (first_cut_longest_match root line Hne) Hk).
  rewrite IH, fmap_cons. cbn [concat]. by rewrite <- !app_assoc.
Qed.

(** With graphemes [a], [ab], [bc] the line [abc] is cut into [ab] and
    the single character [c]. *)
Lemma printMultigraphs_longest_match_witness :
  longest_match_segments Sample.root_a_ab_bc (py "abc") [py "ab"; py "c"] ∧
  printMultigraphs Sample.root_a_ab_bc (py "abc") [] = py "ab c #".
Proof.
  assert (Hc : longest_match_segments Sample.root_a_ab_bc (py "c") [py "c"]).
  { refine (lms_cons Sample.root_a_ab_bc (py "c") 1 [] _ (lms_nil _)).
    split; [vm_compute; lia|]. split; [by right|].
    intros k' [_ Hk'] _. exact Hk'. }
  assert (Habc : longest_match_segments Sample.root_a_ab_bc (py "abc")
                   [py "ab"; py "c"]).
  { refine (lms_cons Sample.root_a_ab_bc (py "abc") 2 [py "c"] _ Hc).
    split; [vm_compute; lia|].
    split; [left; eexists; split; vm_compute; reflexivity|].
    intros k' [_ Hk'] Ht.
    destruct k' as [|[|[|[|k']]]]; [lia|lia|lia| |vm_compute in Hk'; lia].
    destruct Ht as (node & Hw & _). vm_compute in Hw. discriminate. }
  split; [exact Habc|].
  exact (proj2 (printMultigraphs_longest_match Sample.root_a_ab_bc (py "abc") [])
           [py "ab"; py "c"] Habc).
Defined.

(** [printMultigraphs] never fails and loses nothing: its result is
    [result], then segments each followed by a space, then "#"; the
    segments concatenate to [line], and each is a grapheme of the trie
    or a single character. *)
Theorem printMultigraphs_lossless root :
  ∀ line result,
    ∃ segments,
      printMultigraphs root line result =
        result ++ concat ((fun g => g ++ [c_space]) <$> segments) ++ [c_hash] ∧
      concat segments = line ∧
      Forall (fun g => g ≠ [] ∧ (terminal root g ∨ length g = 1)) segments.
Proof.
  intros line. remember (length line) as n eqn:Hn. revert line Hn.
  induction n as [n IH] using lt_wf_ind; intros line Hn result.
  destruct (decide (line = [])) as [->|Hne].
  { exists []. by rewrite printMultigraphs_nil. }
  destruct (first_cut_spec root line Hne) as (_ & Hk & Ht & _).
  rewrite printMultigraphs_step by done.
  destruct (IH (length (drop (first_cut root line) line)))
    with (line := drop (first_cut root line) line)
         (result := result ++ take (first_cut root line) line ++ [c_space])
    as (segments & -> & Hcat & Hall); [rewrite length_drop; lia|done|].
  exists (take (first_cut root line) line :: segments). split_and!.
  - rewrite fmap_cons. cbn [concat]. by rewrite <- !app_assoc.
  - cbn [concat]. rewrite Hcat. apply take_drop.
  - constructor; [|done]. split.
    + intros Heq. apply (f_equal length) in Heq. rewrite length_take in Heq.
      simpl in Heq. lia.
    + destruct Ht as [Ht| ->]; [by left|right].
      rewrite length_take. lia.
Qed.

(** Greedy matching differs from [_parse]: with graphemes a, ab, bc the
    line abc is cut into "ab" and the single character "c", while
    [_parse] falls back to "a" and "bc". *)
Example printMultigraphs_abc :
  printMultigraphs Sample.root_a_ab_bc (py "abc") [] = py "ab c #" ∧
  _parse Sample.root_a_ab_bc (py "abc") = py "a bc #".
Proof. split; by vm_compute. Qed.

End GreedyFacts.

(** * Further properties of the tokenizer *)

Module TokenizerExtra.
Import Tokenizer.

Section Dispatch.

Variable NFD : str → str.
Variable lower : str → str.
Context {pattern : Type}.
Variable re_compile : str → option pattern.
Variable re_search : pattern → str → bool.
Variable re_sub : pattern → str → str → option str.
Variable grapheme_pattern_findall : str → list str.

Local Abbreviation Tokenizer := (Tokenizer pattern).
Local Abbreviation graphemes := (graphemes NFD grapheme_pattern_findall (pattern:=pattern)).
Local Abbreviation transform := (transform NFD grapheme_pattern_findall (pattern:=pattern)).
Local Abbreviation rules_loop := (rules_loop re_search re_sub).
Local Abbreviation rules := (rules NFD re_search re_sub).
Local Abbreviation tokenize :=
  (tokenize NFD re_search re_sub grapheme_pattern_findall (pattern:=pattern)).
Local Abbreviation __init__ := (__init__ NFD lower re_compile).
Local Abbreviation _init_profile_columns := (_init_profile_columns lower (pattern:=pattern)).
Local Abbreviation _init_profile_line := (_init_profile_line NFD lower (pattern:=pattern)).
Local Abbreviation _init_profile_lines := (_init_profile_lines NFD lower (pattern:=pattern)).
Local Abbreviation _init_rules_lines := (_init_rules_lines NFD re_compile).
Local Abbreviation _init_rules := (_init_rules NFD re_compile).

(** A token that is neither a marker nor mapped for [column]. *)
Local Abbreviation unmapped self column :=
  (fun token : str => token ≠ py "#" ∧ token ≠ py "?" ∧
                      mappings self !! (token, column) = None).

(** The remapping loop raises only KeyError, and exactly when a token
    has no mapping. *)
Lemma transform_tokens_outcome (self : Tokenizer) column tokens :
  ∀ result,
    match transform_tokens self column tokens result with
    | Ok out => Forall (fun token => ¬ unmapped self column token) tokens
    | Raise e => e = KeyError ∧ Exists (unmapped self column) tokens
    end.
Proof.
  induction tokens as [|token tokens IH]; intros result; cbn [transform_tokens].
  { constructor. }
  repeat case_bool_decide.
  - specialize (IH (result ++ [py "#"])).
    destruct (transform_tokens self column tokens _).
    + constructor; [|done]. by intros (? & _).
    + destruct IH. split; [done|]. by constructor 2.
  - specialize (IH (result ++ [py "?"])).
    destruct (transform_tokens self column tokens _).
    + constructor; [|done]. by intros (_ & ? & _).
    + destruct IH. split; [done|]. by constructor 2.
  - destruct (mappings self !! (token, column)) as [target|] eqn:Hmap.
    + assert (Hm : ¬ unmapped self column token) by (intros (_ & _ & ?); congruence).
      case_bool_decide; cbn [negb].
      * specialize (IH result).
        destruct (transform_tokens self column tokens _).
        -- by constructor.
        -- destruct IH. split; [done|]. by constructor 2.
      * specialize (IH (result ++ [target])).
        destruct (transform_tokens self column tokens _).
        -- by constructor.
        -- destruct IH. split; [done|]. by constructor 2.
    + split; [done|]. by constructor 1.
Qed.

Lemma transform_raises_cases (self : Tokenizer) string column e :
  transform self string column = Raise e →
  (e = NoProfileError ∧ orthography_profile self = None)
  ∨ (e = KeyError ∧ column ∈ column_labels self ∧
     Exists (unmapped self column) (split (graphemes self string))).
Proof.
  unfold Tokenizer.transform.
  destruct (orthography_profile self) as [path|]; [|intros [= <-]; by left].
  case_bool_decide; [done|].
  case_bool_decide as Hcol; cbn [negb]; [|done].
  pose proof (transform_tokens_outcome self column (split (graphemes self string)) [])
    as Hout.
  destruct (transform_tokens self column _ []) as [out|e']; cbn [bind]; [done|].
  intros [= <-]. destruct Hout as [-> Hout]. by right.
Qed.

(** Given the tokens of the segmentation, [transform] raises KeyError
    exactly when a profile is loaded, the column is a declared one other
    than "graphemes", and some token that is no marker has no entry for
    the column in [mappings]; it raises the usage error exactly when no
    profile is loaded; and it never raises IndexError. *)
Theorem transform_keyerror_iff (self : Tokenizer) string column tokens :
  split (graphemes self string) = tokens →
  (transform self string column = Raise NoProfileError ↔
     orthography_profile self = None) ∧
  (transform self string column = Raise KeyError ↔
     is_Some (orthography_profile self) ∧ column ≠ py "graphemes" ∧
     column ∈ column_labels self ∧ Exists (unmapped self column) tokens) ∧
  transform self string column ≠ Raise IndexError.
Proof.
  intros <-. split_and!.
  - split.
    + intros H. by apply transform_raises_cases in H as [[_ ?]|[? _]].
    + intros H. unfold Tokenizer.transform. by rewrite H.
  - split.
    + intros H. pose proof H as H'.
      apply transform_raises_cases in H' as [[? _]|(_ & Hcol & Hex)]; [done|].
      unfold Tokenizer.transform in H.
      destruct (orthography_profile self) as [path|]; [|done].
      case_bool_decide as Hg; [done|]. eauto.
    + intros ([path Hp] & Hg & Hcol & Hex). unfold Tokenizer.transform.
      rewrite Hp, (bool_decide_eq_false_2 _ Hg), (bool_decide_eq_true_2 _ Hcol).
      cbn [negb].
      pose proof (transform_tokens_outcome self column
                    (split (graphemes self string)) []) as Hout.
      destruct (transform_tokens self column _ []) as [out|e]; cbn [bind].
      * apply Exists_exists in Hex as (token & Hin & Hun).
        rewrite Forall_forall in Hout. by destruct (Hout token Hin).
      * by destruct Hout as [-> _].
  - intros H. by apply transform_raises_cases in H as [[? _]|[? _]].
Qed.

(** The loop of [rules] raises only IndexError or [re.error]. *)
Lemma rules_loop_raises (self : Tokenizer) is_ :
  ∀ acc e, rules_loop self is_ acc = Raise e → e = IndexError ∨ e = ReError.
Proof.
  induction is_ as [|i is_ IH]; intros acc e; cbn [Tokenizer.rules_loop]; [done|].
  unfold getitem.
  destruct (op_rules self !! i) as [rule|]; cbn [bind]; [|intros [= <-]; by left].
  destruct (re_search rule acc); [|apply IH].
  destruct (op_replacements self !! i) as [replacement|]; cbn [bind];
    [|intros [= <-]; by left].
  destruct (re_sub rule replacement acc) as [acc'|]; cbn [bind re_call];
    [apply IH|intros [= <-]; by right].
Qed.


(** [tokenize] calls [transform] only when a profile is loaded: it never
    raises the usage error of [transform]. *)
Theorem tokenize_never_usage_error (self : Tokenizer) string column :
  tokenize self string column ≠ Raise NoProfileError.
Proof.
  unfold Tokenizer.tokenize.
  assert (Hrules : ∀ s, rules self s ≠ Raise NoProfileError).
  { intros s. unfold Tokenizer.rules.
    destruct (orthography_profile_rules self); [|done].
    destruct (rules_loop self _ (NFD s)) as [r|e] eqn:Hr; cbn [bind]; [done|].
    apply rules_loop_raises in Hr as [-> | ->]; done. }
  assert (Htrans : is_Some (orthography_profile self) →
                   transform self string column ≠ Raise NoProfileError).
  { intros [path Hp] H. apply transform_raises_cases in H as [[_ H]|[H _]]; congruence. }
  destruct (orthography_profile self) as [path|] eqn:Hp,
           (orthography_profile_rules self) as [rpath|] eqn:Hr.
  - destruct (transform self string column) as [t|e] eqn:Ht; cbn [bind].
    + apply Hrules.
    + intros [= ->]. by apply Htrans.
  - by apply Htrans.
  - apply Hrules.
  - done.
Qed.

(** The fields [_init_profile] does not touch. *)
Lemma _init_profile_columns_frame g tokens is_ :
  ∀ (self self' : Tokenizer),
    _init_profile_columns g tokens is_ self = Ok self' →
    orthography_profile self' = orthography_profile self ∧
    orthography_profile_rules self' = orthography_profile_rules self ∧
    op_rules self' = op_rules self ∧ op_replacements self' = op_replacements self.
Proof.
  induction is_ as [|i is_ IH]; intros self self';
    cbn [Tokenizer._init_profile_columns].
  { by intros [= <-]. }
  destruct (getitem tokens i); cbn [bind]; [|done].
  destruct (getitem (column_labels self) i); cbn [bind]; [|done].
  intros H. by apply IH in H.
Qed.

Lemma _init_profile_lines_frame lines :
  ∀ (self self' : Tokenizer) lc,
    _init_profile_lines self lc lines = Ok self' →
    orthography_profile self' = orthography_profile self ∧
    orthography_profile_rules self' = orthography_profile_rules self ∧
    op_rules self' = op_rules self ∧ op_replacements self' = op_replacements self.
Proof.
  induction lines as [|l lines IH]; intros self self' lc;
    cbn [Tokenizer._init_profile_lines].
  { by intros [= <-]. }
  destruct (_init_profile_line self (lc + 1) l) as [self1|] eqn:Hline;
    cbn [bind]; [|done].
  intros H. apply IH in H as (-> & -> & -> & ->).
  revert Hline. unfold Tokenizer._init_profile_line.
  destruct (startswith (strip l) [c_hash] || bool_decide (strip l = []));
    [by intros [= <-]|].
  destruct (startswith (lower (strip l)) (py "graphemes")); [by intros [= <-]|].
  destruct (getitem _ 0); cbn [bind]; [|done].
  case_bool_decide; cbn [bind]; [|done].
  case_bool_decide; [by intros [= <-]|].
  intros Hcols. by apply _init_profile_columns_frame in Hcols.
Qed.

Lemma _init_rules_lines_frame lines :
  ∀ (self self' : Tokenizer),
    _init_rules_lines self lines = Ok self' →
    orthography_profile self' = orthography_profile self ∧
    orthography_profile_rules self' = orthography_profile_rules self.
Proof.
  induction lines as [|l lines IH]; intros self self';
    cbn [Tokenizer._init_rules_lines].
  { by intros [= <-]. }
  destruct (RulesFacts._init_rules_line_cases NFD re_compile self l)
    as [[_ ->]|[(_ & _ & ->)|(_ & _ & [->|(c & r & ->)])]]; cbn [bind];
    [apply IH|done|done|].
  intros H. by apply IH in H.
Qed.

Lemma init_fields ortho_path prf rls (self : Tokenizer) :
  __init__ ortho_path prf rls = Ok self →
  length (op_rules self) = length (op_replacements self) ∧
  length (op_rules self) = length (List.filter rule_line (default [] rls)) ∧
  (is_Some (orthography_profile_rules self) ↔ is_Some rls) ∧
  (is_Some (orthography_profile self) ↔ is_Some prf).
Proof.
  unfold Tokenizer.__init__.
  match goal with |- bind ?r _ = _ → _ => destruct r as [self1|] eqn:Hprof end;
    cbn [bind]; [|done].
  assert (H1 : (is_Some (orthography_profile self1) ↔ is_Some prf) ∧
               orthography_profile_rules self1 = None ∧
               op_rules self1 = [] ∧ op_replacements self1 = []).
  { destruct prf as [lines|].
    - destruct (Tree.__init__ NFD lower lines) as [root|]; cbn [bind] in Hprof; [|done].
      apply _init_profile_lines_frame in Hprof as (-> & -> & -> & ->).
      cbn. split_and!; [|done..]. split; eauto.
    - injection Hprof as <-. cbn. split_and!; [|done..].
      split; intros [? ?]; done. }
  destruct H1 as (Hp & Hr & Hrules & Hreps).
  destruct rls as [lines|].
  - unfold Tokenizer._init_rules.
    match goal with |- bind (_init_rules_lines ?s _) _ = _ → _ => set (self2 := s) end.
    pose proof (RulesFacts._init_rules_lines_lockstep NFD re_compile lines self2) as Hl.
    destruct (_init_rules_lines self2 lines) as [self3|] eqn:H3; cbn [bind]; [|done].
    case_bool_decide; [done|]. intros [= <-].
    destruct Hl as (_ & Hl1 & Hl2). cbn in Hl1, Hl2.
    apply _init_rules_lines_frame in H3 as [H3p H3r]. cbn in H3p, H3r.
    rewrite H3p, H3r. split_and!; [lia|done| |done].
    split; eauto.
  - intros [= <-]. rewrite Hrules, Hreps, Hr. split_and!; [done|done| |done].
    split; intros [? ?]; done.
Qed.

(** A constructed tokenizer has as many compiled rules as replacements,
    one pair per rule line of the rules file; it has a rules file
    exactly when one was given, and a profile exactly when one was
    given. *)
Theorem init_rules_paired ortho_path prf rls (self : Tokenizer) :
  __init__ ortho_path prf rls = Ok self →
  length (op_rules self) = length (op_replacements self) ∧
  length (op_rules self) = length (List.filter rule_line (default [] rls)) ∧
  (is_Some (orthography_profile_rules self) ↔ is_Some rls) ∧
  (is_Some (orthography_profile self) ↔ is_Some prf).
Proof. apply init_fields. Qed.


(** A rules file without rule lines is not the same as no rules file:
    [rules] then normalizes its input, twice. *)
Theorem rules_without_rule_lines ortho_path prf lines (self : Tokenizer) string :
  __init__ ortho_path prf (Some lines) = Ok self →
  Forall (fun l => rule_line l = false) lines →
  rules self string = Ok (NFD (NFD string)).
Proof.
  intros Hinit Hnone.
  destruct (init_fields ortho_path prf (Some lines) self Hinit)
    as (_ & Hn & [_ Hr] & _).
  destruct Hr as [rpath Hr]; [eauto|].
  assert (Hz : length (op_rules self) = 0).
  { rewrite Hn. cbn [default from_option id]. clear -Hnone.
    induction Hnone as [|l lines Hl _ IH]; [done|].
    cbn [List.filter]. by rewrite Hl. }
  unfold Tokenizer.rules. by rewrite Hr, Hz.
Qed.

(** In a text without words (empty, or whitespace only) there is nothing
    to segment: with a profile loaded [graphemes] returns the empty
    string, and so does [transform] for every column. *)
Theorem graphemes_no_words (self : Tokenizer) string column :
  is_Some (orthography_profile self) →
  split (NFD string) = [] →
  graphemes self string = [] ∧ transform self string column = Ok [].
Proof.
  intros [path Hp] Hsplit.
  assert (Hg : graphemes self string = []).
  { unfold Tokenizer.graphemes. rewrite Hp, Hsplit. reflexivity. }
  split; [done|]. unfold Tokenizer.transform. rewrite Hp, Hg.
  repeat case_bool_decide; reflexivity.
Qed.

End Dispatch.

Lemma transform_keyerror_iff_witness :
  split (Sample.graphemes (Sample.load (Some Sample.profile_partial) None) (py "ab"))
    = [py "a"; py "b"] ∧
  Sample.transform (Sample.load (Some Sample.profile_partial) None) (py "ab") (py "ipa")
    = Raise KeyError ∧
  Exists (fun token : str =>
            token ≠ py "#" ∧ token ≠ py "?" ∧
            mappings (Sample.load (Some Sample.profile_partial) None)
              !! (token, py "ipa") = None)
    [py "a"; py "b"].
Proof.
  assert (Hg : split (Sample.graphemes (Sample.load (Some Sample.profile_partial) None)
                        (py "ab")) = [py "a"; py "b"]) by (by vm_compute).
  assert (Hk : Sample.transform (Sample.load (Some Sample.profile_partial) None)
                 (py "ab") (py "ipa") = Raise KeyError) by (by vm_compute).
  split_and!; [exact Hg|exact Hk|].
  destruct (transform_keyerror_iff Sample.NFD_ascii Sample.findall_chars
              (Sample.load (Some Sample.profile_partial) None) (py "ab") (py "ipa")
              [py "a"; py "b"] Hg) as (_ & [Hcause _] & _).
  exact (proj2 (proj2 (proj2 (Hcause Hk)))).
Defined.

Lemma init_rules_paired_witness :
  Sample.new_Tokenizer (py "p") None (Some Sample.rules_A_B_C)
    = Ok (Sample.load None (Some Sample.rules_A_B_C)) ∧
  length (op_rules (Sample.load None (Some Sample.rules_A_B_C))) =
    length (op_replacements (Sample.load None (Some Sample.rules_A_B_C))) ∧
  length (op_rules (Sample.load None (Some Sample.rules_A_B_C))) =
    length (List.filter rule_line (default [] (Some Sample.rules_A_B_C))) ∧
  (is_Some (orthography_profile_rules (Sample.load None (Some Sample.rules_A_B_C)))
   ↔ is_Some (Some Sample.rules_A_B_C)) ∧
  (is_Some (orthography_profile (Sample.load None (Some Sample.rules_A_B_C)))
   ↔ is_Some (@None (list str))).
Proof.
  split; [by vm_compute|].
  apply (init_rules_paired Sample.NFD_ascii Sample.lower_ascii Sample.lit_compile
           (py "p") None (Some Sample.rules_A_B_C)).
  by vm_compute.
Defined.


(** The pairing matters: with a rule that has no replacement, [rules]
    raises IndexError as soon as the rule matches. *)
Example rules_unpaired_index_error :
  Sample.rules
    (set_rules [py "A"] [] (Sample.load None (Some Sample.rules_A_B_C))) (py "A")
    = Raise IndexError.
Proof. by vm_compute. Qed.

Lemma rules_without_rule_lines_witness :
  Sample.new_Tokenizer (py "p") None (Some Sample.rules_comments)
    = Ok (Sample.load None (Some Sample.rules_comments)) ∧
  Forall (fun l => rule_line l = false) Sample.rules_comments ∧
  Sample.rules (Sample.load None (Some Sample.rules_comments)) (py "A")
    = Ok (Sample.NFD_ascii (Sample.NFD_ascii (py "A"))).
Proof.
  assert (H1 : Sample.new_Tokenizer (py "p") None (Some Sample.rules_comments)
               = Ok (Sample.load None (Some Sample.rules_comments))) by (by vm_compute).
  assert (H2 : Forall (fun l => rule_line l = false) Sample.rules_comments)
    by (repeat constructor).
  split_and!; [exact H1|exact H2|].
  exact (rules_without_rule_lines Sample.NFD_ascii Sample.lower_ascii
           Sample.lit_compile Sample.lit_search Sample.lit_sub
           (py "p") None Sample.rules_comments _ (py "A") H1 H2).
Defined.

Lemma graphemes_no_words_witness :
  is_Some (orthography_profile (Sample.load (Some Sample.profile_ipa) None)) ∧
  split (Sample.NFD_ascii (py "   ")) = [] ∧
  Sample.graphemes (Sample.load (Some Sample.profile_ipa) None) (py "   ") = [] ∧
  Sample.transform (Sample.load (Some Sample.profile_ipa) None) (py "   ") (py "ipa")
    = Ok [].
Proof.
  assert (H1 : is_Some (orthography_profile (Sample.load (Some Sample.profile_ipa) None)))
    by (vm_compute; eauto).
  assert (H2 : split (Sample.NFD_ascii (py "   ")) = []) by (by vm_compute).
  split_and!; [exact H1|exact H2|..];
    apply (graphemes_no_words Sample.NFD_ascii Sample.findall_chars
             (Sample.load (Some Sample.profile_ipa) None) (py "   ") (py "ipa") H1 H2).
Defined.

End TokenizerExtra.

(** * Further properties of combine_modifiers *)

Module ModifierExtra.
Import Tokenizer ModifierFacts.

Lemma tie_bar_loop_plain segments :
  ∀ r,
    Forall (fun segment : str => segment ≠ []) segments →
    Forall (fun segment => ends_in_tie_bar segment = false) segments →
    tie_bar_loop segments r = Ok (r ++ segments).
Proof.
  induction segments as [|s segments IH]; intros r Hne Hplain; cbn [tie_bar_loop].
  { by rewrite app_nil_r. }
  inversion Hne as [|? ? Hs Hne']; subst.
  inversion Hplain as [|? ? Ht Hplain']; subst.
  unfold ends_in_tie_bar in Ht.
  destruct (list.last s) as [c|] eqn:Hlast; [|by apply last_None in Hlast].
  rewrite Ht, IH by done. by rewrite <- app_assoc.
Qed.

Lemma tie_bar_loop_concat n :
  ∀ segments r r',
    length segments ≤ n →
    tie_bar_loop segments r = Ok r' →
    concat r' = concat r ++ concat segments ∧ length r' ≤ length r + length segments.
Proof.
  induction n as [|n IH]; intros segments r r' Hn.
  { destruct segments; [|simpl in Hn; lia]. intros [= <-].
    rewrite app_nil_r. split; [done|simpl; lia]. }
  destruct segments as [|s rest]; cbn [tie_bar_loop].
  { intros [= <-]. rewrite app_nil_r. split; [done|simpl; lia]. }
  destruct (list.last s) as [c|]; [|done].
  destruct (bool_decide (c ∈ tie_bars)).
  - destruct rest as [|s' rest']; [done|].
    intros H. apply IH in H as [-> Hlen]; [|simpl in Hn; lia].
    rewrite length_app in Hlen. simpl in *.
    rewrite concat_app. simpl. rewrite app_nil_r, <- !app_assoc. split; [done|lia].
  - intros H. apply IH in H as [-> Hlen]; [|simpl in Hn; lia].
    rewrite length_app in Hlen. simpl in *.
    rewrite concat_app. simpl. rewrite app_nil_r, <- !app_assoc. split; [done|lia].
Qed.

Lemma prepend_to_last_inv temp result result' :
  prepend_to_last temp result = Ok result' →
  ∃ init x, result = init ++ [x] ∧ result' = init ++ [temp ++ x].
Proof.
  unfold prepend_to_last. destruct (list.last result) as [x|] eqn:Hlast; [|done].
  apply last_Some in Hlast as [init ->]. intros [= <-].
  exists init, x. split; [done|].
  rewrite length_app. simpl.
  replace (length init + 1 - 1) with (length init) by lia.
  by rewrite take_app_length.
Qed.

Section Combine.

Variable category : char → str.

Local Abbreviation is_modifier := (is_modifier category).
Local Abbreviation combine_loop := (combine_loop category).
Local Abbreviation combine_modifiers := (combine_modifiers category).

(** The first loop keeps every character, in order: what it has built,
    read back to front, is the graphemes read so far followed by the
    pending modifiers. *)
Lemma combine_loop_concat rev_graphemes :
  ∀ temp result result',
    rev_graphemes ≠ [] →
    combine_loop rev_graphemes (length rev_graphemes) temp result = Ok result' →
    concat (reverse result') =
      concat (reverse rev_graphemes) ++ temp ++ concat (reverse result) ∧
    length result' ≤ length result + length rev_graphemes.
Proof.
  induction rev_graphemes as [|g rest IH]; intros temp result result' Hne; [done|].
  cbn [Tokenizer.combine_loop length].
  replace (S (length rest) - 1) with (length rest) by lia.
  rewrite reverse_cons, concat_app. cbn [concat]. rewrite app_nil_r.
  destruct (is_modifier g).
  - case_bool_decide as Hz.
    + destruct rest; [|done].
      destruct (prepend_to_last (g ++ temp) result) as [result1|] eqn:Hp;
        cbn [bind Tokenizer.combine_loop]; [|done].
      intros [= <-].
      apply prepend_to_last_inv in Hp as (init & x & -> & ->).
      rewrite !reverse_app, !reverse_singleton. cbn [app concat reverse].
      rewrite !length_app. simpl. rewrite <- !app_assoc. split; [done|lia].
    + intros H. apply IH in H as [-> Hlen]; [|by destruct rest].
      rewrite <- !app_assoc. split; [done|lia].
  - destruct rest as [|g' rest'].
    + cbn [Tokenizer.combine_loop]. intros [= <-].
      rewrite reverse_app, reverse_singleton. cbn [app concat reverse].
      rewrite length_app. simpl. rewrite <- !app_assoc. split; [done|lia].
    + intros H. apply IH in H as [-> Hlen]; [|done].
      rewrite length_app in Hlen. simpl in Hlen.
      rewrite reverse_app, reverse_singleton. cbn [app concat].
      rewrite <- !app_assoc. split; [done|simpl; lia].
Qed.

(** [combine_modifiers] only regroups: when it returns, its result is a
    list of segments joined by spaces whose concatenation is that of the
    input segments, and there are no more of them than before. *)
Theorem combine_modifiers_regroups string out :
  combine_modifiers string = Ok out →
  ∃ r, out = join [c_space] r ∧
       concat r = concat (split string) ∧
       length r ≤ length (split string).
Proof.
  unfold Tokenizer.combine_modifiers.
  destruct (combine_loop (reverse (split string)) (length (split string)) [] [])
    as [result|] eqn:Hloop; cbn [bind]; [|done].
  destruct (tie_bar_loop (reverse result) []) as [r|] eqn:Htie; cbn [bind]; [|done].
  intros [= <-]. exists r. split; [done|].
  apply (tie_bar_loop_concat (length (reverse result))) in Htie as [Hcat Hlen]; [|done].
  rewrite length_reverse in Hlen. simpl in Hcat, Hlen.
  destruct (decide (split string = [])) as [He|Hne].
  - rewrite He in *. cbn in Hloop. injection Hloop as <-.
    rewrite Hcat. simpl in *. split; [done|lia].
  - rewrite <- (length_reverse (split string)) in Hloop.
    apply combine_loop_concat in Hloop as [Hc Hl].
    + rewrite reverse_involutive, app_nil_l, reverse_nil in Hc. simpl in Hc.
      rewrite app_nil_r in Hc. rewrite length_reverse in Hl. simpl in Hl.
      rewrite Hcat, Hc. split; [done|lia].
    + intros Hr. apply (f_equal length) in Hr. rewrite length_reverse in Hr.
      by destruct (split string).
Qed.

(** Segments that are neither modifier letters nor end in a tie bar are
    left as they are: the result is the input with its whitespace
    normalized. *)
Theorem combine_modifiers_plain string :
  Forall (fun g => is_modifier g = false) (split string) →
  Forall (fun g => ends_in_tie_bar g = false) (split string) →
  combine_modifiers string = Ok (join [c_space] (split string)).
Proof.
  intros Hmod Htie. unfold Tokenizer.combine_modifiers.
  rewrite (combine_loop_no_modifiers category) by (by apply Forall_reverse).
  cbn [bind app]. rewrite reverse_involutive.
  rewrite tie_bar_loop_plain; [done|apply split_nonempty|done].
Qed.

End Combine.

Lemma combine_modifiers_regroups_witness :
  Sample.combine_modifiers [97%N; 32%N; 688%N; 32%N; 98%N; 865%N; 32%N; 99%N]
    = Ok [97%N; 688%N; 32%N; 98%N; 865%N; 99%N] ∧
  ∃ r, [97%N; 688%N; 32%N; 98%N; 865%N; 99%N] = join [c_space] r ∧
       concat r = concat (split [97%N; 32%N; 688%N; 32%N; 98%N; 865%N; 32%N; 99%N]) ∧
       length r ≤ length (split [97%N; 32%N; 688%N; 32%N; 98%N; 865%N; 32%N; 99%N]).
Proof.
  split; [by vm_compute|].
  apply (combine_modifiers_regroups Sample.category_excerpt
           [97%N; 32%N; 688%N; 32%N; 98%N; 865%N; 32%N; 99%N]).
  by vm_compute.
Defined.

Lemma combine_modifiers_plain_witness :
  Forall (fun g => is_modifier Sample.category_excerpt g = false) (split (py " ab  c ")) ∧
  Forall (fun g => ends_in_tie_bar g = false) (split (py " ab  c ")) ∧
  Sample.combine_modifiers (py " ab  c ") = Ok (join [c_space] (split (py " ab  c "))).
Proof.
  assert (H1 : Forall (fun g => is_modifier Sample.category_excerpt g = false)
                 (split (py " ab  c "))) by (vm_compute; repeat constructor).
  assert (H2 : Forall (fun g => ends_in_tie_bar g = false) (split (py " ab  c ")))
    by (vm_compute; repeat constructor).
  split_and!; [exact H1|exact H2|].
  exact (combine_modifiers_plain Sample.category_excerpt (py " ab  c ") H1 H2).
Defined.

End ModifierExtra.

(** * The character-level fallback of graphemes *)

Module FallbackFacts.
Import Tokenizer.

(** The characters of [s], each followed by a space. *)
Local Abbreviation spaced s := (concat ((fun c : char => [c; c_space]) <$> s)).
Local Abbreviation singles s := ((fun c : char => [c]) <$> s).

Lemma foldl_spaced (s : str) :
  ∀ acc, foldl (fun result character => result ++ [character] ++ [c_space]) acc s
         = acc ++ spaced s.
Proof.
  induction s as [|c s IH]; intros acc; simpl; [by rewrite app_nil_r|].
  rewrite IH. by rewrite <- app_assoc.
Qed.

Lemma join_cons_nonempty sep (x : str) l :
  l ≠ [] → join sep (x :: l) = x ++ sep ++ join sep l.
Proof. by destruct l. Qed.

Lemma join_singles_snoc (s : str) c :
  join [c_space] (singles (s ++ [c])) = spaced s ++ [c].
Proof.
  induction s as [|c' s IH]; [done|].
  change ((c' :: s) ++ [c]) with (c' :: (s ++ [c])). rewrite fmap_cons.
  rewrite join_cons_nonempty.
  - by rewrite IH.
  - intros He. apply fmap_nil_inv in He. by destruct s.
Qed.

Lemma lstrip_with_head p (c : char) s : p c = false → lstrip_with p (c :: s) = c :: s.
Proof. intros H. simpl. by rewrite H. Qed.

Lemma rstrip_with_snoc p (s : str) c :
  rstrip_with p (s ++ [c]) = if p c then rstrip_with p s else s ++ [c].
Proof.
  unfold rstrip_with. rewrite reverse_app, reverse_singleton. simpl.
  destruct (p c); [done|]. by rewrite reverse_cons, reverse_involutive.
Qed.

(** [characters] separates the characters by single spaces. *)
Lemma strip_spaced (s : str) :
  Forall (fun c => isspace c = false) s →
  strip (spaced s) = join [c_space] (singles s).
Proof.
  intros Hs. destruct s as [|c s] using rev_ind; [done|]. clear IHs.
  rewrite join_singles_snoc, fmap_app, concat_app. cbn [fmap list_fmap concat].
  rewrite app_nil_r.
  apply Forall_app in Hs as [Hs Hc]. inversion Hc as [|? ? Hc' _]; subst.
  unfold strip.
  assert (Hl : lstrip_with isspace (spaced s ++ [c; c_space]) = spaced s ++ [c; c_space]).
  { destruct s as [|c0 s]; simpl.
    - by rewrite Hc'.
    - inversion Hs as [|? ? Hc0 _]; subst. by rewrite Hc0. }
  rewrite Hl.
  change (spaced s ++ [c; c_space]) with (spaced s ++ [c] ++ [c_space]).
  rewrite app_assoc, rstrip_with_snoc.
  change (isspace c_space) with true. cbn match.
  by rewrite rstrip_with_snoc, Hc'.
Qed.

Lemma split_ws_go_spaced (s : str) :
  Forall (fun c => isspace c = false) s →
  ∀ rest, split_ws_go [] (spaced s ++ rest) = singles s ++ split_ws_go [] rest.
Proof.
  induction 1 as [|c s Hc _ IH]; intros rest; [done|].
  cbn [fmap list_fmap concat app split_ws_go]. rewrite Hc.
  cbn [split_ws_go]. change (isspace c_space) with true. cbn match.
  rewrite decide_False by done. rewrite IH. done.
Qed.

Lemma split_join_singles (s : str) :
  Forall (fun c => isspace c = false) s →
  split (join [c_space] (singles s)) = singles s.
Proof.
  intros Hs. destruct s as [|c s] using rev_ind; [done|]. clear IHs.
  apply Forall_app in Hs as [Hs Hc]. inversion Hc as [|? ? Hc' _]; subst.
  rewrite join_singles_snoc. unfold split. rewrite split_ws_go_spaced by done.
  cbn [split_ws_go]. rewrite Hc'. cbn [split_ws_go].
  rewrite decide_False by done. by rewrite fmap_app.
Qed.

Section Fallback.

Variable NFD : str → str.
Context {pattern : Type}.

(** [characters] puts single spaces between the characters of the
    normalized text, in which "#" stands for every space. *)
Theorem characters_single_spaces string :
  Forall (fun c => isspace c = false) (NFD (replace [c_space] [c_hash] string)) →
  characters NFD string =
    join [c_space] ((fun c => [c]) <$> NFD (replace [c_space] [c_hash] string)) ∧
  split (characters NFD string) =
    (fun c => [c]) <$> NFD (replace [c_space] [c_hash] string).
Proof.
  intros Hns. unfold characters.
  rewrite foldl_spaced, app_nil_l, strip_spaced by done.
  split; [done|]. by apply split_join_singles.
Qed.

Local Abbreviation Tokenizer := (Tokenizer pattern).

(** A word that the trie cannot parse is put out character by character
    (of its normalized form), each character that is not a grapheme of
    the profile by itself replaced by "?", after a leading space. *)
Theorem graphemes_word_fallback (self : Tokenizer) word :
  Tree.parse (tree self) word = [] →
  Forall (fun c => isspace c = false) (NFD (replace [c_space] [c_hash] word)) →
  graphemes_word NFD self word =
    [c_space] ++
    join [c_space]
      ((fun c => if bool_decide (is_Some (op_graphemes self !! [c]))
                 then [c] else [c_qmark])
         <$> NFD (replace [c_space] [c_hash] word)).
Proof.
  intros Hparse Hns. unfold graphemes_word. rewrite Hparse.
  rewrite bool_decide_eq_true_2 by done.
  unfold find_missing_characters, characters.
  rewrite foldl_spaced, app_nil_l, strip_spaced, split_join_singles by done.
  by rewrite <- list_fmap_compose.
Qed.

End Fallback.

Lemma graphemes_word_fallback_witness :
  Tree.parse (tree (Sample.load (Some Sample.profile_ipa) None)) (py "bxa") = [] ∧
  Forall (fun c => isspace c = false)
    (Sample.NFD_ascii (replace [c_space] [c_hash] (py "bxa"))) ∧
  graphemes_word Sample.NFD_ascii (Sample.load (Some Sample.profile_ipa) None) (py "bxa") =
    [c_space] ++
    join [c_space]
      ((fun c => if bool_decide (is_Some
                      (op_graphemes (Sample.load (Some Sample.profile_ipa) None) !! [c]))
                 then [c] else [c_qmark])
         <$> Sample.NFD_ascii (replace [c_space] [c_hash] (py "bxa"))).
Proof.
  assert (H1 : Tree.parse (tree (Sample.load (Some Sample.profile_ipa) None)) (py "bxa")
               = []) by (by vm_compute).
  assert (H2 : Forall (fun c => isspace c = false)
                 (Sample.NFD_ascii (replace [c_space] [c_hash] (py "bxa"))))
    by (vm_compute; repeat constructor).
  split_and!; [exact H1|exact H2|].
  exact (graphemes_word_fallback Sample.NFD_ascii
           (Sample.load (Some Sample.profile_ipa) None) (py "bxa") H1 H2).
Defined.

Lemma characters_single_spaces_witness :
  Forall (fun c => isspace c = false)
    (Sample.NFD_ascii (replace [c_space] [c_hash] (py "ab c"))) ∧
  characters Sample.NFD_ascii (py "ab c") =
    join [c_space]
      ((fun c => [c]) <$> Sample.NFD_ascii (replace [c_space] [c_hash] (py "ab c"))) ∧
  split (characters Sample.NFD_ascii (py "ab c")) =
    (fun c => [c]) <$> Sample.NFD_ascii (replace [c_space] [c_hash] (py "ab c")).
Proof.
  assert (H : Forall (fun c => isspace c = false)
                (Sample.NFD_ascii (replace [c_space] [c_hash] (py "ab c"))))
    by (vm_compute; repeat constructor).
  split; [exact H|].
  exact (characters_single_spaces Sample.NFD_ascii (py "ab c") H).
Defined.

Example characters_ab_c :
  characters Sample.NFD_ascii (py "ab c") = py "a b # c".
Proof. by vm_compute. Qed.

Example graphemes_word_bxa :
  graphemes_word Sample.NFD_ascii (Sample.load (Some Sample.profile_ipa) None) (py "bxa")
    = py " b ? a".
Proof. by vm_compute. Qed.

End FallbackFacts.

(** * The profile table after loading *)

Module ProfileExtra.
Import StrFacts Tokenizer ProfileFacts.

Section Table.

Variable NFD : str → str.
Variable lower : str → str.
Context {pattern : Type}.
Variable re_compile : str → option pattern.

Local Abbreviation Tokenizer := (Tokenizer pattern).
Local Abbreviation data_line := (data_line lower).
Local Abbreviation header_line := (header_line lower).
Local Abbreviation line_tokens := (line_tokens NFD).
Local Abbreviation line_grapheme := (line_grapheme NFD).
Local Abbreviation line_labels := (line_labels lower).
Local Abbreviation header_labels := (header_labels lower).
Local Abbreviation labels_of_line := (labels_of_line lower).
Local Abbreviation repeats := (repeats NFD lower).
Local Abbreviation fits := (fits NFD lower).
Local Abbreviation all_fit_before := (all_fit_before NFD lower).
Local Abbreviation first_repeat_from := (first_repeat_from NFD lower).
Local Abbreviation first_repeat := (first_repeat NFD lower).
Local Abbreviation _init_profile_columns := (_init_profile_columns lower (pattern:=pattern)).
Local Abbreviation _init_profile_line := (_init_profile_line NFD lower (pattern:=pattern)).
Local Abbreviation _init_profile_lines := (_init_profile_lines NFD lower (pattern:=pattern)).
Local Abbreviation __init__ := (__init__ NFD lower re_compile).

(** The column loop writes [mappings[grapheme, label.lower()]] for the
    labels in range and nothing else. *)
Lemma _init_profile_columns_frame_mappings g tokens n :
  ∀ a (self self' : Tokenizer),
    _init_profile_columns g tokens (seq a n) self = Ok self' →
    column_labels self' = column_labels self ∧
    op_graphemes self' = op_graphemes self ∧
    ∀ key,
      (∀ j lblj, a ≤ j < a + n → column_labels self !! j = Some lblj →
                 key ≠ (g, lower lblj)) →
      mappings self' !! key = mappings self !! key.
Proof.
  induction n as [|n IH]; intros a self self';
    cbn [seq Tokenizer._init_profile_columns].
  { by intros [= <-]. }
  unfold getitem. destruct (tokens !! a) as [t|]; cbn [bind]; [|done].
  destruct (column_labels self !! a) as [lbl|] eqn:Hlbl; cbn [bind]; [|done].
  intros H. apply IH in H as (-> & -> & Hframe). split_and!; [done..|].
  intros key Hkey. rewrite Hframe.
  - cbn. rewrite lookup_insert_ne; [done|]. intros <-.
    apply (Hkey a lbl); [lia|done|done].
  - intros j lblj Hj Hl. cbn in Hl. apply (Hkey j lblj); [lia|done].
Qed.

Lemma _init_profile_columns_written g tokens n :
  ∀ a (self self' : Tokenizer),
    _init_profile_columns g tokens (seq a n) self = Ok self' →
    ∀ i t lbl,
      a ≤ i < a + n →
      tokens !! i = Some t → column_labels self !! i = Some lbl →
      (∀ j lblj, i < j < a + n → column_labels self !! j = Some lblj →
                 lower lblj ≠ lower lbl) →
      mappings self' !! (g, lower lbl) = Some (strip t).
Proof.
  induction n as [|n IH]; intros a self self';
    cbn [seq Tokenizer._init_profile_columns]; [intros _ i t lbl; lia|].
  unfold getitem. destruct (tokens !! a) as [ta|] eqn:Hta; cbn [bind]; [|done].
  destruct (column_labels self !! a) as [la|] eqn:Hla; cbn [bind]; [|done].
  intros H i t lbl Hi Ht Hlbl Hlater.
  destruct (decide (i = a)) as [->|Hne].
  - rewrite Hta in Ht. rewrite Hla in Hlbl. injection Ht as ->. injection Hlbl as ->.
    apply _init_profile_columns_frame_mappings in H as (_ & _ & Hframe).
    rewrite Hframe.
    + cbn. by rewrite lookup_insert_eq.
    + intros j lblj Hj Hl [= Heq]. cbn in Hl.
      apply (Hlater j lblj); [lia|done|done].
  - apply (IH (S a) _ _ H i t lbl); [lia|done|done|].
    intros j lblj Hj Hl. cbn in Hl. apply (Hlater j lblj); [lia|done].
Qed.

(** What one line does to the profile table. *)
Lemma _init_profile_line_ok (self self1 : Tokenizer) lc l :
  _init_profile_line self lc l = Ok self1 →
  column_labels self1 = column_labels self ++ line_labels l ∧
  op_graphemes self1 =
    (if data_line l then <[line_grapheme l := 1]> (op_graphemes self)
     else op_graphemes self) ∧
  (data_line l = true → op_graphemes self !! line_grapheme l = None) ∧
  (∀ g K, (data_line l = true → g ≠ line_grapheme l) →
          mappings self1 !! (g, K) = mappings self !! (g, K)) ∧
  (data_line l = true → 1 < length (line_tokens l) →
   ∀ i t lbl,
     line_tokens l !! i = Some t → column_labels self !! i = Some lbl →
     (∀ j lblj, i < j < length (line_tokens l) →
                column_labels self !! j = Some lblj → lower lblj ≠ lower lbl) →
     mappings self1 !! (line_grapheme l, lower lbl) = Some (strip t)).
Proof.
  unfold Tokenizer._init_profile_line, Tokenizer.line_labels.
  pose proof (eq_refl : data_line l = data_line l) as Hdata.
  pose proof (eq_refl : header_line l = header_line l) as Hhead.
  unfold Tokenizer.data_line in Hdata at 2.
  unfold Tokenizer.header_line in Hhead at 2.
  cbv zeta in Hdata, Hhead.
  destruct (startswith (strip l) [c_hash] || bool_decide (strip l = [])) eqn:Hskip;
    simpl in Hdata, Hhead.
  { intros [= <-]. rewrite Hdata, Hhead, app_nil_r. done. }
  destruct (startswith (lower (strip l)) (py "graphemes")) eqn:Hhdr;
    simpl in Hdata, Hhead.
  { intros [= <-]. rewrite Hdata, Hhead. cbn. done. }
  rewrite Hdata, Hhead, app_nil_r.
  fold (line_tokens l).
  assert (Hg : ∃ tokens0, line_tokens l !! 0 = Some tokens0 ∧
                           line_grapheme l = strip tokens0).
  { unfold Tokenizer.line_grapheme.
    destruct (line_tokens l) as [|t0 ts] eqn:Ht.
    - by apply split_on_nonempty in Ht.
    - by exists t0. }
  destruct Hg as (tokens0 & Ht0 & Hg).
  unfold getitem at 1. rewrite Ht0. cbn [bind]. rewrite <- Hg.
  destruct (op_graphemes self !! line_grapheme l) as [v|] eqn:Hseen.
  { rewrite bool_decide_eq_false_2 by done. cbn [bind]. done. }
  rewrite bool_decide_eq_true_2 by done. cbn [bind].
  destruct (decide (length (line_tokens l) = 1)) as [Hone|Hone].
  - rewrite (bool_decide_eq_true_2 _ Hone). intros [= <-]. cbn.
    split_and!; [done..|intros _ ?; lia].
  - rewrite (bool_decide_eq_false_2 _ Hone). intros Hcols.
    pose proof (_init_profile_columns_written _ _ _ _ _ _ Hcols) as Hwritten.
    apply _init_profile_columns_frame_mappings in Hcols as (-> & -> & Hframe).
    cbn. split_and!; [done|done|done| |].
    + intros g K Hne. rewrite Hframe; [done|].
      intros j lblj _ _ [= -> _]. by apply Hne.
    + intros _ _ i t lbl Ht Hlbl Hlater.
      apply (Hwritten i t lbl); [|done|done|done].
      apply lookup_lt_Some in Ht. lia.
Qed.

Lemma header_labels_cons l lines :
  header_labels (l :: lines) = line_labels l ++ header_labels lines.
Proof. reflexivity. Qed.

(** A successful load has read no grapheme twice. *)
Lemma _init_profile_lines_no_repeat lines (self self' : Tokenizer) lc :
  _init_profile_lines self lc lines = Ok self' →
  ∀ d, repeats (op_graphemes self) lines d = false.
Proof.
  intros Hok d. destruct (repeats (op_graphemes self) lines d) eqn:Hrep; [|done].
  destruct (first_repeat_from_spec NFD lower (op_graphemes self) lines (S d) 0 d)
    as (d' & _ & _ & Hd' & Hfirst); [lia|done|lia|].
  rewrite (_init_profile_lines_repeat NFD lower lines self lc d' Hd' Hfirst) in Hok.
  done.
Qed.

(** Lines that do not declare [g] leave its mappings alone. *)
Lemma _init_profile_lines_frame_mappings lines :
  ∀ (self self' : Tokenizer) lc g K,
    _init_profile_lines self lc lines = Ok self' →
    (∀ l, l ∈ lines → data_line l = true → line_grapheme l ≠ g) →
    mappings self' !! (g, K) = mappings self !! (g, K).
Proof.
  induction lines as [|l lines IH]; intros self self' lc g K;
    cbn [Tokenizer._init_profile_lines].
  { by intros [= <-]. }
  destruct (_init_profile_line self (lc + 1) l) as [self1|] eqn:Hline;
    cbn [bind]; [|done].
  intros Hok Hother.
  rewrite (IH _ _ _ g K Hok) by (intros l' Hl'; apply Hother; by constructor 2).
  apply _init_profile_line_ok in Hline as (_ & _ & _ & Hframe & _).
  apply Hframe. intros Hd Heq. by apply (Hother l); [constructor| |].
Qed.

(** The table after a successful load: the labels are those of the
    header lines, the graphemes those of the data rows, and every field
    of a data row is found under its grapheme and its column's label. *)
Lemma _init_profile_lines_table lines :
  ∀ (self self' : Tokenizer) lc,
    _init_profile_lines self lc lines = Ok self' →
    column_labels self' = column_labels self ++ header_labels lines ∧
    (∀ g, is_Some (op_graphemes self' !! g) ↔
          is_Some (op_graphemes self !! g) ∨
          ∃ l, l ∈ lines ∧ data_line l = true ∧ line_grapheme l = g) ∧
    (∀ m l i t lbl,
       lines !! m = Some l → data_line l = true → 1 < length (line_tokens l) →
       line_tokens l !! i = Some t →
       (column_labels self ++ header_labels (take m lines)) !! i = Some lbl →
       (∀ j lblj, i < j < length (line_tokens l) →
                  (column_labels self ++ header_labels (take m lines)) !! j = Some lblj →
                  lower lblj ≠ lower lbl) →
       mappings self' !! (line_grapheme l, lower lbl) = Some (strip t)).
Proof.
  induction lines as [|l lines IH]; intros self self' lc Hok.
  { cbn in Hok. injection Hok as <-. split_and!.
    - by rewrite app_nil_r.
    - intros g. split; [by left|]. intros [?|(l & Hl & _)]; [done|].
      by apply elem_of_nil in Hl.
    - intros m l i t lbl Hl. by rewrite lookup_nil in Hl. }
  pose proof (_init_profile_lines_no_repeat _ _ _ _ Hok) as Hnorep.
  cbn [Tokenizer._init_profile_lines] in Hok.
  destruct (_init_profile_line self (lc + 1) l) as [self1|] eqn:Hline;
    cbn [bind] in Hok; [|done].
  pose proof (_init_profile_line_ok _ _ _ _ Hline)
    as (Hlabels & Hseen & Hfresh & Hframe & Hwritten).
  destruct (IH _ _ _ Hok) as (IHl & IHg & IHm).
  split_and!.
  - by rewrite IHl, Hlabels, header_labels_cons, app_assoc.
  - intros g. rewrite IHg, Hseen. split.
    + intros [Hs|(l' & Hl' & Hd' & Hg')].
      * destruct (data_line l) eqn:Hd; [|by left].
        destruct (decide (line_grapheme l = g)) as [<-|Hne].
        -- right. exists l. split_and!; [constructor|done..].
        -- left. by rewrite lookup_insert_ne in Hs.
      * right. exists l'. split_and!; [by constructor 2|done..].
    + intros [Hs|(l' & Hl' & Hd' & Hg')].
      * left. destruct (data_line l); [|done].
        destruct (decide (line_grapheme l = g)) as [<-|Hne].
        -- rewrite lookup_insert_eq. eauto.
        -- by rewrite lookup_insert_ne.
      * apply elem_of_cons in Hl' as [->|Hl'].
        -- left. rewrite Hd', <- Hg', lookup_insert_eq. eauto.
        -- right. exists l'. by split_and!.
  - intros m l0 i t lbl Hm Hd Hw Ht Hlbl Hlater.
    destruct m as [|m].
    + cbn in Hm. injection Hm as ->. cbn [take header_labels] in Hlbl, Hlater.
      unfold Tokenizer.header_labels in Hlbl, Hlater. cbn in Hlbl, Hlater.
      rewrite app_nil_r in Hlbl, Hlater.
      rewrite (_init_profile_lines_frame_mappings _ _ _ _ _ _ Hok).
      * by apply (Hwritten Hd Hw i t lbl).
      * intros l' Hl' Hd' Heq.
        apply list_elem_of_lookup in Hl' as [d Hl'].
        specialize (Hnorep (S d)).
        rewrite repeats_cons, Hd in Hnorep.
        unfold Tokenizer.repeats in Hnorep. rewrite Hl', Hd', Heq in Hnorep.
        rewrite lookup_insert_eq in Hnorep.
        rewrite (bool_decide_eq_true_2 (is_Some (Some 1))) in Hnorep by eauto.
        done.
    + cbn in Hm. apply (IHm m l0 i t lbl Hm Hd Hw Ht).
      * revert Hlbl. rewrite Hlabels. cbn [take]. 
        by rewrite header_labels_cons, app_assoc.
      * intros j lblj Hj Hl. apply (Hlater j lblj); [done|].
        revert Hl. rewrite Hlabels. cbn [take].
        by rewrite header_labels_cons, app_assoc.
Qed.

Lemma line_labels_length l : length (line_labels l) = labels_of_line l.
Proof.
  unfold Tokenizer.line_labels, Tokenizer.labels_of_line.
  destruct (header_line l); [by rewrite length_fmap|done].
Qed.

(** A line is read without exception when, if it is a data row, its
    grapheme is new and its fields fit the labels. *)
Lemma _init_profile_line_succeeds (self : Tokenizer) lc l :
  (data_line l = true →
   op_graphemes self !! line_grapheme l = None ∧
   (length (line_tokens l) = 1 ∨ length (line_tokens l) ≤ length (column_labels self))) →
  ∃ self1, _init_profile_line self lc l = Ok self1.
Proof.
  unfold Tokenizer._init_profile_line.
  pose proof (eq_refl : data_line l = data_line l) as Hdata.
  unfold Tokenizer.data_line in Hdata at 2. cbv zeta in Hdata.
  destruct (startswith (strip l) [c_hash] || bool_decide (strip l = []));
    simpl in Hdata; [eauto|].
  destruct (startswith (lower (strip l)) (py "graphemes")); simpl in Hdata; [eauto|].
  intros H. destruct (H Hdata) as [Hseen Hfit].
  fold (line_tokens l).
  assert (Hg : ∃ tokens0, line_tokens l !! 0 = Some tokens0 ∧
                           line_grapheme l = strip tokens0).
  { unfold Tokenizer.line_grapheme.
    destruct (line_tokens l) as [|t0 ts] eqn:Ht.
    - by apply split_on_nonempty in Ht.
    - by exists t0. }
  destruct Hg as (tokens0 & Ht0 & Hg).
  unfold getitem at 1. rewrite Ht0. cbn [bind]. rewrite <- Hg.
  rewrite bool_decide_eq_true_2 by done. cbn [bind].
  destruct (decide (length (line_tokens l) = 1)) as [Hone|Hone].
  - rewrite (bool_decide_eq_true_2 _ Hone). eauto.
  - rewrite (bool_decide_eq_false_2 _ Hone).
    destruct (_init_profile_columns_ok lower (line_grapheme l) (line_tokens l)
                (length (line_tokens l)) 0
                (set_op_graphemes <[line_grapheme l := 1]> self))
      as (self' & -> & _); [lia|cbn; lia|eauto].
Qed.

Lemma _init_profile_lines_succeeds lines :
  ∀ (self : Tokenizer) lc,
    (∀ d, repeats (op_graphemes self) lines d = false) →
    (∀ m, fits (length (column_labels self)) lines m = true) →
    ∃ self', _init_profile_lines self lc lines = Ok self'.
Proof.
  induction lines as [|l lines IH]; intros self lc Hnorep Hfit;
    cbn [Tokenizer._init_profile_lines]; [eauto|].
  destruct (_init_profile_line_succeeds self (lc + 1) l) as [self1 Hline].
  { intros Hd. split.
    - specialize (Hnorep 0). rewrite repeats_0, Hd in Hnorep. cbn in Hnorep.
      destruct (op_graphemes self !! line_grapheme l) eqn:Hs; [|done].
      rewrite bool_decide_eq_true_2 in Hnorep by eauto. done.
    - specialize (Hfit 0). unfold Tokenizer.fits in Hfit. cbn in Hfit.
      rewrite Hd in Hfit. cbn in Hfit.
      unfold Tokenizer.declared_labels in Hfit. cbn in Hfit.
      rewrite Nat.add_0_r in Hfit.
      apply orb_true_iff in Hfit as [Hfit|Hfit]; apply bool_decide_eq_true_1 in Hfit;
        [by left|by right]. }
  rewrite Hline. cbn [bind].
  apply _init_profile_line_ok in Hline as (Hlabels & Hseen & _).
  apply IH.
  - intros d. specialize (Hnorep (S d)). rewrite repeats_cons in Hnorep.
    by rewrite Hseen.
  - intros m. specialize (Hfit (S m)). rewrite fits_cons in Hfit.
    by rewrite Hlabels, length_app, line_labels_length.
Qed.

(** A data row with a new grapheme and more fields than labels stops
    the load with an IndexError. *)
Lemma _init_profile_line_unfit (self : Tokenizer) lc l :
  data_line l = true →
  op_graphemes self !! line_grapheme l = None →
  length (line_tokens l) ≠ 1 →
  length (column_labels self) < length (line_tokens l) →
  _init_profile_line self lc l = Raise IndexError.
Proof.
  intros Hd Hseen Hone Hwide. unfold Tokenizer._init_profile_line.
  pose proof (eq_refl : data_line l = data_line l) as Hdata.
  unfold Tokenizer.data_line in Hdata at 2. cbv zeta in Hdata.
  rewrite Hd in Hdata.
  destruct (startswith (strip l) [c_hash] || bool_decide (strip l = []));
    simpl in Hdata; [done|].
  destruct (startswith (lower (strip l)) (py "graphemes")); simpl in Hdata; [done|].
  fold (line_tokens l).
  assert (Hg : ∃ tokens0, line_tokens l !! 0 = Some tokens0 ∧
                           line_grapheme l = strip tokens0).
  { unfold Tokenizer.line_grapheme.
    destruct (line_tokens l) as [|t0 ts] eqn:Ht.
    - by apply split_on_nonempty in Ht.
    - by exists t0. }
  destruct Hg as (tokens0 & Ht0 & Hg).
  unfold getitem at 1. rewrite Ht0. cbn [bind]. rewrite <- Hg.
  rewrite bool_decide_eq_true_2 by done. cbn [bind].
  rewrite (bool_decide_eq_false_2 _ Hone).
  apply _init_profile_columns_raise; [lia|cbn; lia].
Qed.

Lemma _init_profile_lines_unfit lines :
  ∀ (self : Tokenizer) lc,
    (∀ d, repeats (op_graphemes self) lines d = false) →
    (∃ m, fits (length (column_labels self)) lines m = false) →
    _init_profile_lines self lc lines = Raise IndexError.
Proof.
  induction lines as [|l lines IH]; intros self lc Hnorep [m Hm].
  { unfold Tokenizer.fits in Hm. by rewrite lookup_nil in Hm. }
  cbn [Tokenizer._init_profile_lines].
  assert (Hseen0 : data_line l = true → op_graphemes self !! line_grapheme l = None).
  { intros Hd. specialize (Hnorep 0). rewrite repeats_0, Hd in Hnorep. cbn in Hnorep.
    destruct (op_graphemes self !! line_grapheme l) eqn:Hs; [|done].
    rewrite bool_decide_eq_true_2 in Hnorep by eauto. done. }
  destruct (fits (length (column_labels self)) (l :: lines) 0) eqn:Hfit0.
  - destruct (_init_profile_line_succeeds self (lc + 1) l) as [self1 Hline].
    { intros Hd. split; [by apply Hseen0|].
      unfold Tokenizer.fits in Hfit0. cbn in Hfit0. rewrite Hd in Hfit0. cbn in Hfit0.
      unfold Tokenizer.declared_labels in Hfit0. cbn in Hfit0.
      rewrite Nat.add_0_r in Hfit0.
      apply orb_true_iff in Hfit0 as [Hf|Hf]; apply bool_decide_eq_true_1 in Hf;
        [by left|by right]. }
    rewrite Hline. cbn [bind].
    apply _init_profile_line_ok in Hline as (Hlabels & Hseen & _).
    apply IH.
    + intros d. specialize (Hnorep (S d)). rewrite repeats_cons in Hnorep.
      by rewrite Hseen.
    + destruct m as [|m]; [congruence|]. exists m.
      rewrite fits_cons in Hm. by rewrite Hlabels, length_app, line_labels_length.
  - unfold Tokenizer.fits in Hfit0. cbn in Hfit0.
    destruct (data_line l) eqn:Hd; [|done]. cbn in Hfit0.
    unfold Tokenizer.declared_labels in Hfit0. cbn in Hfit0.
    rewrite Nat.add_0_r in Hfit0.
    apply orb_false_iff in Hfit0 as [Hone Hwide].
    apply bool_decide_eq_false_1 in Hone. apply bool_decide_eq_false_1 in Hwide.
    rewrite _init_profile_line_unfit; [done|done|by apply Hseen0|done|lia].
Qed.

Lemma first_repeat_from_None seen lines n :
  ∀ d0, first_repeat_from seen lines d0 n = None →
        ∀ d, d0 ≤ d < d0 + n → repeats seen lines d = false.
Proof.
  induction n as [|n IH]; intros d0 Hnone d Hd; [lia|].
  cbn in Hnone. destruct (repeats seen lines d0) eqn:Hd0; [done|].
  destruct (decide (d = d0)) as [->|]; [done|].
  apply (IH (d0 + 1)); [done|lia].
Qed.

(** The rules loop leaves the profile table alone. *)
Lemma _init_rules_lines_frame_table lines :
  ∀ (self self' : Tokenizer),
    _init_rules_lines NFD re_compile self lines = Ok self' →
    column_labels self' = column_labels self ∧
    mappings self' = mappings self ∧
    op_graphemes self' = op_graphemes self.
Proof.
  induction lines as [|l lines IH]; intros self self';
    cbn [Tokenizer._init_rules_lines].
  { by intros [= <-]. }
  destruct (RulesFacts._init_rules_line_cases NFD re_compile self l)
    as [[_ ->]|[(_ & _ & ->)|(_ & _ & [->|(c & r & ->)])]]; cbn [bind];
    [apply IH|done|done|].
  intros H. by apply IH in H.
Qed.

(** [__init__] with a profile: the table is that of the profile loop. *)
Lemma init_profile_part ortho_path lines rls (self : Tokenizer) :
  __init__ ortho_path (Some lines) rls = Ok self →
  ∃ self0 self1 : Tokenizer,
    column_labels self0 = [] ∧ op_graphemes self0 = ∅ ∧
    _init_profile_lines self0 0 lines = Ok self1 ∧
    column_labels self = column_labels self1 ∧
    mappings self = mappings self1 ∧
    op_graphemes self = op_graphemes self1.
Proof.
  unfold Tokenizer.__init__.
  destruct (Tree.__init__ NFD lower lines) as [root|]; cbn [bind]; [|done].
  unfold Tokenizer._init_profile.
  match goal with
  | |- bind (_init_profile_lines ?s 0 lines) _ = _ → _ => set (self0 := s)
  end.
  destruct (_init_profile_lines self0 0 lines) as [self1|] eqn:Hprof;
    cbn [bind]; [|done].
  intros Hrules. exists self0, self1. split_and!; [done..| | |].
  all: destruct rls as [rl|]; [|by injection Hrules as <-].
  all: unfold Tokenizer._init_rules in Hrules.
  all: match type of Hrules with
       | bind ?r _ = _ => destruct r as [self2|] eqn:H2; cbn [bind] in Hrules; [|done]
       end.
  all: destruct (bool_decide _); [done|]; injection Hrules as <-.
  all: apply _init_rules_lines_frame_table in H2 as (E1 & E2 & E3).
  all: cbn in E1, E2, E3; congruence.
Qed.

(** Without a repeated grapheme the load of a profile depends on the
    width of its rows only: it succeeds when every data row has one
    field or no more fields than the column labels declared before it,
    and raises an IndexError otherwise. *)
Theorem profile_loads_iff_rows_fit ortho_path lines :
  first_repeat lines = None →
  if all_fit_before 0 lines (length lines)
  then ∃ self : Tokenizer, __init__ ortho_path (Some lines) None = Ok self
  else __init__ ortho_path (Some lines) None = Raise IndexError.
Proof.
  intros Hnone. unfold Tokenizer.__init__.
  destruct (TrieFacts.__init___total NFD lower lines) as [root ->]. cbn [bind].
  unfold Tokenizer._init_profile.
  match goal with
  | |- context [_init_profile_lines ?s 0 lines] => set (self0 := s)
  end.
  assert (Hnorep : ∀ d, repeats (op_graphemes self0) lines d = false).
  { intros d. destruct (decide (d < length lines)).
    - apply (first_repeat_from_None ∅ lines (length lines) 0 Hnone). lia.
    - unfold Tokenizer.repeats. by rewrite lookup_ge_None_2 by lia. }
  destruct (all_fit_before 0 lines (length lines)) eqn:Hfit.
  - destruct (_init_profile_lines_succeeds lines self0 0) as [self1 ->];
      [done| |cbn [bind]; eauto].
    intros m. destruct (decide (m < length lines)).
    + unfold Tokenizer.all_fit_before in Hfit.
      rewrite forallb_forall in Hfit. apply Hfit.
      apply list_elem_of_In, elem_of_seq. lia.
    + unfold Tokenizer.fits. by rewrite lookup_ge_None_2 by lia.
  - rewrite (_init_profile_lines_unfit lines self0 0 Hnorep); [done|].
    unfold Tokenizer.all_fit_before in Hfit.
    apply not_true_iff_false in Hfit. rewrite forallb_forall in Hfit.
    destruct (existsb (fun m => negb (fits 0 lines m)) (seq 0 (length lines))) eqn:Hex.
    + apply existsb_exists in Hex as (m & _ & Hm). exists m.
      apply negb_true_iff in Hm. exact Hm.
    + exfalso. apply Hfit. intros m Hm.
      destruct (fits 0 lines m) eqn:Hfm; [done|].
      assert (existsb (fun m => negb (fits 0 lines m)) (seq 0 (length lines)) = true);
        [|congruence].
      apply existsb_exists. exists m. by rewrite Hfm.
Qed.

(** After construction the column labels are those of the header lines
    of the profile, in order, and the graphemes known to the tokenizer
    are exactly those of its data rows. *)
Theorem profile_labels_and_graphemes ortho_path lines rls (self : Tokenizer) :
  __init__ ortho_path (Some lines) rls = Ok self →
  column_labels self = header_labels lines ∧
  ∀ g, is_Some (op_graphemes self !! g) ↔
       ∃ l, l ∈ lines ∧ data_line l = true ∧ line_grapheme l = g.
Proof.
  intros Hinit.
  destruct (init_profile_part _ _ _ _ Hinit)
    as (self0 & self1 & Hl0 & Hg0 & Hprof & -> & _ & ->).
  destruct (_init_profile_lines_table lines _ _ _ Hprof) as (Hl & Hg & _).
  split; [by rewrite Hl, Hl0|].
  intros g. rewrite Hg, Hg0, lookup_empty. split; [|by right].
  intros [[? ?]|?]; done.
Qed.

(** What a data row says is what the tokenizer looks up: after
    construction, field [i] of a data row with several fields is stored
    in [mappings] under the row's grapheme and the lower-cased label of
    column [i], unless a later column of the row has the same label. *)
Theorem profile_mappings_lookup ortho_path lines rls (self : Tokenizer) m l i t lbl :
  __init__ ortho_path (Some lines) rls = Ok self →
  lines !! m = Some l → data_line l = true → 1 < length (line_tokens l) →
  line_tokens l !! i = Some t →
  header_labels (take m lines) !! i = Some lbl →
  (∀ j lblj, i < j < length (line_tokens l) →
             header_labels (take m lines) !! j = Some lblj → lower lblj ≠ lower lbl) →
  mappings self !! (line_grapheme l, lower lbl) = Some (strip t).
Proof.
  intros Hinit Hm Hd Hw Ht Hlbl Hlater.
  destruct (init_profile_part _ _ _ _ Hinit)
    as (self0 & self1 & Hl0 & Hg0 & Hprof & _ & -> & _).
  destruct (_init_profile_lines_table lines _ _ _ Hprof) as (_ & _ & Hmap).
  apply (Hmap m l i t lbl Hm Hd Hw Ht); rewrite Hl0; done.
Qed.

End Table.

Lemma profile_loads_iff_rows_fit_witness :
  first_repeat Sample.NFD_ascii Sample.lower_ascii Sample.profile_ipa = None ∧
  all_fit_before Sample.NFD_ascii Sample.lower_ascii 0 Sample.profile_ipa
    (length Sample.profile_ipa) = true ∧
  (if all_fit_before Sample.NFD_ascii Sample.lower_ascii 0 Sample.profile_ipa
        (length Sample.profile_ipa)
   then ∃ self : Sample.Tokenizer,
          Sample.new_Tokenizer (py "p") (Some Sample.profile_ipa) None = Ok self
   else Sample.new_Tokenizer (py "p") (Some Sample.profile_ipa) None = Raise IndexError).
Proof.
  split; [reflexivity|]. split; [reflexivity|].
  apply (profile_loads_iff_rows_fit Sample.NFD_ascii Sample.lower_ascii
           Sample.lit_compile (py "p") Sample.profile_ipa); reflexivity.
Defined.

Lemma profile_labels_and_graphemes_witness :
  Sample.new_Tokenizer (py "p") (Some Sample.profile_ipa) None
    = Ok (Sample.load (Some Sample.profile_ipa) None) ∧
  column_labels (Sample.load (Some Sample.profile_ipa) None)
    = header_labels Sample.lower_ascii Sample.profile_ipa ∧
  ∀ g, is_Some (op_graphemes (Sample.load (Some Sample.profile_ipa) None) !! g) ↔
       ∃ l, l ∈ Sample.profile_ipa ∧ data_line Sample.lower_ascii l = true ∧
            line_grapheme Sample.NFD_ascii l = g.
Proof.
  split; [by vm_compute|].
  apply (profile_labels_and_graphemes Sample.NFD_ascii Sample.lower_ascii
           Sample.lit_compile (py "p") Sample.profile_ipa None).
  by vm_compute.
Defined.

Lemma profile_mappings_lookup_witness :
  Sample.new_Tokenizer (py "p") (Some Sample.profile_ipa) None
    = Ok (Sample.load (Some Sample.profile_ipa) None) ∧
  Sample.profile_ipa !! 2 = Some (Sample.row ["b"; "NULL"]%string) ∧
  data_line Sample.lower_ascii (Sample.row ["b"; "NULL"]%string) = true ∧
  1 < length (line_tokens Sample.NFD_ascii (Sample.row ["b"; "NULL"]%string)) ∧
  line_tokens Sample.NFD_ascii (Sample.row ["b"; "NULL"]%string) !! 1 = Some (py "NULL") ∧
  header_labels Sample.lower_ascii (take 2 Sample.profile_ipa) !! 1 = Some (py "ipa") ∧
  mappings (Sample.load (Some Sample.profile_ipa) None)
    !! (line_grapheme Sample.NFD_ascii (Sample.row ["b"; "NULL"]%string),
        Sample.lower_ascii (py "ipa"))
    = Some (strip (py "NULL")).
Proof.
  assert (H0 : Sample.new_Tokenizer (py "p") (Some Sample.profile_ipa) None
               = Ok (Sample.load (Some Sample.profile_ipa) None)) by (by vm_compute).
  assert (Hw : 1 < length (line_tokens Sample.NFD_ascii (Sample.row ["b"; "NULL"]%string)))
    by (vm_compute; lia).
  split_and!; [exact H0|reflexivity|reflexivity|exact Hw|reflexivity|reflexivity|].
  apply (profile_mappings_lookup Sample.NFD_ascii Sample.lower_ascii Sample.lit_compile
           (py "p") Sample.profile_ipa None (Sample.load (Some Sample.profile_ipa) None)
           2 (Sample.row ["b"; "NULL"]%string) 1 (py "NULL") (py "ipa"));
    [exact H0|reflexivity|reflexivity|exact Hw|reflexivity|reflexivity|].
  intros j lblj Hj. exfalso. revert Hj. vm_compute. lia.
Defined.

End ProfileExtra.

(** * graphemes on a text whose words all parse *)

Module GraphemesFacts.
Import Tokenizer FallbackFacts.

(** A string without "#" that neither starts nor ends with whitespace. *)
Local Abbreviation body_ok Y :=
  (Forall (fun c : char => c ≠ c_hash) Y%list ∧
   (∃ c Y', Y%list = (c :: Y')%list ∧ isspace c = false) ∧
   (∃ Y' c, Y%list = (Y' ++ [c])%list ∧ isspace c = false)).

Local Abbreviation collapse s := (replace_go [c_hash; c_hash] [c_hash] 0 s).

Lemma startswith_nil (s : str) : startswith s [] = true.
Proof. by destruct s. Qed.

Lemma startswith_cons c (s : str) p ps :
  startswith (c :: s) (p :: ps) = if decide (p = c) then startswith s ps else false.
Proof. reflexivity. Qed.

Lemma replace_go_scan old new c (s : str) :
  replace_go old new 0 (c :: s) =
  if startswith (c :: s) old
  then new ++ replace_go old new (length old - 1) s
  else c :: replace_go old new 0 s.
Proof. reflexivity. Qed.

Lemma replace_go_skip old new k c (s : str) :
  replace_go old new (S k) (c :: s) = replace_go old new k s.
Proof. reflexivity. Qed.

Lemma collapse_other c s : c ≠ c_hash → collapse (c :: s) = c :: collapse s.
Proof.
  intros Hc. rewrite replace_go_scan, startswith_cons.
  by rewrite decide_False by done.
Qed.

Lemma collapse_single_hash c s :
  c ≠ c_hash → collapse (c_hash :: c :: s) = c_hash :: collapse (c :: s).
Proof.
  intros Hc. rewrite replace_go_scan, !startswith_cons.
  rewrite decide_True by done. by rewrite decide_False by done.
Qed.

Lemma collapse_double_hash s : collapse (c_hash :: c_hash :: s) = c_hash :: collapse s.
Proof.
  rewrite replace_go_scan, !startswith_cons, startswith_nil.
  rewrite !decide_True by done.
  change (length [c_hash; c_hash] - 1) with 1. by rewrite replace_go_skip.
Qed.

Lemma collapse_no_hash Y s :
  Forall (fun c => c ≠ c_hash) Y → collapse (Y ++ s) = Y ++ collapse s.
Proof.
  induction 1 as [|c Y Hc _ IH]; [done|].
  cbn [app]. by rewrite collapse_other, IH.
Qed.

(** The concatenated word parses "# Y #", and what is left of them when
    "##" is collapsed. *)
Local Abbreviation blocks Ys :=
  (concat ((fun Y : str => [c_hash; c_space] ++ Y ++ [c_space; c_hash]) <$> Ys)).
Local Abbreviation tails Ys :=
  (concat ((fun Y : str => [c_space] ++ Y ++ [c_space; c_hash]) <$> Ys)).

Lemma collapse_tail Ys :
  ∀ Y, Forall (fun c => c ≠ c_hash) Y →
       Forall (fun Y' : str => Forall (fun c => c ≠ c_hash) Y') Ys →
       collapse ([c_space] ++ Y ++ [c_space; c_hash] ++ blocks Ys)
       = [c_space] ++ Y ++ [c_space; c_hash] ++ tails Ys.
Proof.
  induction Ys as [|Y' Ys IH]; intros Y HY HYs.
  - cbn [fmap list_fmap concat app]. rewrite collapse_other by done.
    rewrite collapse_no_hash by done. by rewrite collapse_other by done.
  - inversion HYs as [|? ? HY' HYs']; subst.
    rewrite fmap_cons. cbn [concat app].
    rewrite collapse_other by done. rewrite collapse_no_hash by done.
    rewrite collapse_other by done. rewrite collapse_double_hash.
    specialize (IH Y' HY' HYs'). cbn [app] in IH. rewrite <- app_assoc. cbn [app].
    rewrite IH. rewrite fmap_cons. cbn [concat app]. by rewrite <- app_assoc.
Qed.

Lemma collapse_blocks Y Ys :
  Forall (fun Y' : str => Forall (fun c => c ≠ c_hash) Y') (Y :: Ys) →
  replace (py "##") (py "#") (blocks (Y :: Ys)) = c_hash :: tails (Y :: Ys).
Proof.
  intros HYs. inversion HYs as [|? ? HY HYs']; subst.
  unfold replace. change (py "##") with [c_hash; c_hash]. change (py "#") with [c_hash].
  rewrite !fmap_cons. cbn [concat app].
  rewrite collapse_single_hash by done.
  pose proof (collapse_tail Ys Y HY HYs') as H. cbn [app] in H.
  rewrite <- app_assoc. cbn [app]. by rewrite H, <- app_assoc.
Qed.

Lemma tails_join Y Ys :
  tails (Y :: Ys) = [c_space] ++ join (py " # ") (Y :: Ys) ++ [c_space; c_hash].
Proof.
  revert Y. induction Ys as [|Y' Ys IH]; intros Y.
  - cbn. by rewrite app_nil_r.
  - rewrite fmap_cons. cbn [concat]. rewrite IH.
    rewrite (join_cons_nonempty _ Y (Y' :: Ys)) by done.
    change (py " # ") with [c_space; c_hash; c_space].
    cbn [app]. rewrite <- !app_assoc. cbn [app]. done.
Qed.

Lemma join_words_edges Y Ys :
  Forall (fun Y' : str => body_ok Y') (Y :: Ys) →
  (∃ c J', join (py " # ") (Y :: Ys) = c :: J' ∧ isspace c = false) ∧
  (∃ J' c, join (py " # ") (Y :: Ys) = J' ++ [c] ∧ isspace c = false).
Proof.
  revert Y. induction Ys as [|Y' Ys IH]; intros Y HYs;
    inversion HYs as [|? ? (_ & Hh & Hl) HYs']; subst.
  - done.
  - rewrite join_cons_nonempty by done.
    destruct (IH Y' HYs') as [_ (J' & c & -> & Hc)].
    destruct Hh as (c0 & Y0 & -> & Hc0). split.
    + by exists c0, (Y0 ++ py " # " ++ J' ++ [c]).
    + exists ((c0 :: Y0) ++ py " # " ++ J'), c. by rewrite <- !app_assoc.
Qed.

Lemma rstrip_hash (s : str) :
  rstrip (py "#") ((s ++ [c_space]) ++ [c_hash]) = s ++ [c_space].
Proof.
  unfold rstrip. rewrite rstrip_with_snoc.
  replace (bool_decide (c_hash ∈ py "#")) with true by (by vm_compute).
  rewrite rstrip_with_snoc.
  by replace (bool_decide (c_space ∈ py "#")) with false by (by vm_compute).
Qed.

Lemma lstrip_hash (s : str) :
  lstrip (py "#") (c_hash :: c_space :: s) = c_space :: s.
Proof.
  unfold lstrip. cbn [lstrip_with].
  replace (bool_decide (c_hash ∈ py "#")) with true by (by vm_compute).
  by replace (bool_decide (c_space ∈ py "#")) with false by (by vm_compute).
Qed.

Lemma strip_padded (J : str) :
  (∃ c J', J = c :: J' ∧ isspace c = false) →
  (∃ J' c, J = J' ++ [c] ∧ isspace c = false) →
  strip (c_space :: J ++ [c_space]) = J.
Proof.
  intros (c & J' & HJ & Hc) (J'' & c' & HJ' & Hc').
  unfold strip. cbn [lstrip_with].
  replace (isspace c_space) with true by (by vm_compute).
  assert (Hl : lstrip_with isspace (J ++ [c_space]) = J ++ [c_space]).
  { rewrite HJ. cbn [app lstrip_with]. by rewrite Hc. }
  rewrite Hl, rstrip_with_snoc.
  replace (isspace c_space) with true by (by vm_compute).
  by rewrite HJ', rstrip_with_snoc, Hc'.
Qed.

(** Collapsing "##" and stripping the outer markers and blanks leaves
    the words' segmentations with " # " between them. *)
Lemma strip_blocks Y Ys :
  Forall (fun Y' : str => body_ok Y') (Y :: Ys) →
  strip (lstrip (py "#") (rstrip (py "#")
           (replace (py "##") (py "#") (blocks (Y :: Ys)))))
  = join (py " # ") (Y :: Ys).
Proof.
  intros HYs. rewrite collapse_blocks.
  2:{ revert HYs. apply Forall_impl. by intros ? (? & _). }
  rewrite tails_join.
  destruct (join_words_edges Y Ys HYs) as [Hhead Hlast].
  set (J := join (py " # ") (Y :: Ys)) in *.
  replace (c_hash :: [c_space] ++ J ++ [c_space; c_hash])
    with (((c_hash :: c_space :: J) ++ [c_space]) ++ [c_hash])
    by (cbn [app]; by rewrite <- !app_assoc).
  rewrite rstrip_hash. cbn [app]. rewrite lstrip_hash.
  by apply strip_padded.
Qed.

Lemma join_nil_concat (l : list str) : join [] l = concat l.
Proof.
  induction l as [|x [|y l] IH]; [done|by cbn; rewrite app_nil_r|].
  rewrite join_cons_nonempty by done. rewrite IH. done.
Qed.

Lemma join_snoc_nonempty sep (l : list str) x :
  l ≠ [] → join sep (l ++ [x]) = join sep l ++ sep ++ x.
Proof.
  induction l as [|y [|z l] IH]; intros Hne; [done|done|].
  change ((y :: z :: l) ++ [x]) with (y :: ((z :: l) ++ [x])).
  rewrite !join_cons_nonempty by done. rewrite IH by done.
  by rewrite <- !app_assoc.
Qed.

Lemma join_segments_ok (gs : list str) :
  gs ≠ [] →
  Forall (fun g : str =>
            g ≠ [] ∧ Forall (fun c => isspace c = false ∧ c ≠ c_hash) g) gs →
  body_ok (join [c_space] gs).
Proof.
  assert (Hg : ∀ g : str,
            g ≠ [] → Forall (fun c => isspace c = false ∧ c ≠ c_hash) g → body_ok g).
  { intros g Hne HP. split_and!.
    - revert HP. apply Forall_impl. by intros ? [? ?].
    - destruct g as [|c g]; [done|]. inversion HP as [|? ? [Hc _] _]; subst.
      by exists c, g.
    - destruct g as [|c g _] using rev_ind; [done|].
      apply Forall_app in HP as [_ HP]. inversion HP as [|? ? [Hc _] _]; subst.
      by exists g, c. }
  induction gs as [|g [|g' gs] IH]; intros Hne Hall; [done| |].
  - inversion Hall as [|? ? [Hgne HP] _]; subst. by apply Hg.
  - inversion Hall as [|? ? [Hgne HP] Hall']; subst.
    rewrite join_cons_nonempty by done.
    destruct (IH ltac:(done) Hall') as (Hh & _ & (Y' & c & HY & Hc)).
    destruct (Hg g Hgne HP) as (Hgh & (c0 & g0 & -> & Hc0) & _).
    split_and!.
    + apply Forall_app. split; [done|]. by constructor.
    + by exists c0, (g0 ++ [c_space] ++ join [c_space] (g' :: gs)).
    + exists ((c0 :: g0) ++ [c_space] ++ Y'), c. rewrite HY.
      by rewrite <- !app_assoc.
Qed.

(** The words [s.split()] yields are not empty, hold no whitespace, and
    hold only characters of [s]. *)
Lemma split_ws_go_words (P : char → Prop) s :
  Forall P s →
  ∀ cur, Forall (fun c => isspace c = false ∧ P c) cur →
         Forall (fun w : str => w ≠ [] ∧ Forall (fun c => isspace c = false ∧ P c) w)
           (split_ws_go cur s).
Proof.
  assert (Hrev : ∀ cur : str,
            cur ≠ [] → Forall (fun c => isspace c = false ∧ P c) cur →
            reverse cur ≠ [] ∧ Forall (fun c => isspace c = false ∧ P c) (reverse cur)).
  { intros cur Hne Hcur. split; [|by apply Forall_reverse].
    intros Hr. apply (f_equal length) in Hr. rewrite length_reverse in Hr.
    by destruct cur. }
  induction 1 as [|c s Hc _ IH]; intros cur Hcur; cbn [split_ws_go].
  - case_decide; [constructor|].
    constructor; [by apply Hrev|constructor].
  - destruct (isspace c) eqn:Hsp.
    + apply Forall_app. split; [|apply IH; constructor].
      case_decide; [constructor|].
      constructor; [by apply Hrev|constructor].
    + apply IH. by constructor.
Qed.

Section Graphemes.

Variable NFD : str → str.
Context {pattern : Type}.
Variable grapheme_pattern_findall : str → list str.

Local Abbreviation Tokenizer := (Tokenizer pattern).
Local Abbreviation graphemes := (graphemes NFD grapheme_pattern_findall (pattern:=pattern)).

(** A word that parses contributes "# g1 ... gk #". *)
Lemma graphemes_word_parsed (self : Tokenizer) word :
  word ≠ [] →
  Forall (fun c => isspace c = false ∧ c ≠ c_hash) word →
  Tree.parse (tree self) word ≠ [] →
  ∃ gs, (concat gs = word ∧
         Forall (fun g => g ≠ [] ∧ Tree.terminal (tree self) g) gs) ∧
        graphemes_word NFD self word =
          [c_hash; c_space] ++ join [c_space] gs ++ [c_space; c_hash] ∧
        body_ok (join [c_space] gs).
Proof.
  intros Hne Hchars Hparse. unfold graphemes_word.
  rewrite bool_decide_eq_false_2
    by (intros Hz; by destruct (Tree.parse (tree self) word)).
  unfold Tree.parse in *.
  destruct (decide (Tree._parse (tree self) word = [])) as [|Hp]; [done|].
  destruct (SegmenterClaims._parse_form (tree self) word Hp) as (gs & Hgs & Hcat & ->).
  assert (Hgne : gs ≠ []) by (intros ->; by subst).
  assert (Hall : Forall (fun g : str =>
              g ≠ [] ∧ Forall (fun c => isspace c = false ∧ c ≠ c_hash) g) gs).
  { subst word. clear -Hgs Hchars.
    induction Hgs as [|g gs [Hg _] _ IH]; [constructor|].
    cbn in Hchars. apply Forall_app in Hchars as [? ?].
    constructor; [done|by apply IH]. }
  exists gs. split; [done|]. split.
  - by rewrite join_snoc_nonempty by done.
  - by apply join_segments_ok.
Qed.

Lemma graphemes_words_parsed (self : Tokenizer) words :
  Forall (fun w : str => w ≠ [] ∧ Forall (fun c => isspace c = false ∧ c ≠ c_hash) w)
    words →
  Forall (fun word => Tree.parse (tree self) word ≠ []) words →
  ∃ segss,
    Forall2 (fun word gs =>
               concat gs = word ∧
               Forall (fun g => g ≠ [] ∧ Tree.terminal (tree self) g) gs) words segss ∧
    graphemes_word NFD self <$> words =
      (fun Y : str => [c_hash; c_space] ++ Y ++ [c_space; c_hash])
        <$> (join [c_space] <$> segss) ∧
    Forall (fun Y : str => body_ok Y) (join [c_space] <$> segss).
Proof.
  induction 1 as [|w words [Hne Hchars] _ IH]; intros Hparse.
  { exists []. split_and!; constructor. }
  inversion Hparse as [|? ? Hw Hws]; subst.
  destruct (IH Hws) as (segss & HF & Heq & Hok).
  destruct (graphemes_word_parsed self w Hne Hchars Hw) as (gs & Hgs & Hword & Hbody).
  exists (gs :: segss). split_and!.
  - by constructor.
  - rewrite !fmap_cons. by rewrite Hword, Heq.
  - rewrite fmap_cons. by constructor.
Qed.

(** When every word of a text without "#" parses, [graphemes] returns
    the graphemes of each word separated by single spaces, with " # "
    between the words; the graphemes of a word are graphemes of the trie
    and concatenate to the word. *)
Theorem graphemes_of_parsable_text (self : Tokenizer) string :
  is_Some (orthography_profile self) →
  Forall (fun c => c ≠ c_hash) (NFD string) →
  Forall (fun word => Tree.parse (tree self) word ≠ []) (split (NFD string)) →
  ∃ segss,
    Forall2 (fun word gs =>
               concat gs = word ∧
               Forall (fun g => g ≠ [] ∧ Tree.terminal (tree self) g) gs)
      (split (NFD string)) segss ∧
    graphemes self string = join (py " # ") (join [c_space] <$> segss).
Proof.
  intros [path Hp] Hhash Hparse.
  destruct (graphemes_words_parsed self (split (NFD string))) as (segss & HF & Heq & Hok);
    [|done|].
  { apply (split_ws_go_words (fun c => c ≠ c_hash)); [done|constructor]. }
  exists segss. split; [done|].
  unfold Tokenizer.graphemes. rewrite Hp, Heq, join_nil_concat.
  destruct (join [c_space] <$> segss) as [|Y Ys] eqn:HYs; [done|].
  by apply strip_blocks.
Qed.

End Graphemes.

Lemma graphemes_of_parsable_text_witness :
  is_Some (orthography_profile (Sample.load (Some Sample.profile_uu_b_o) None)) ∧
  Forall (fun c => c ≠ c_hash) (Sample.NFD_ascii (py "uubo  bouu")) ∧
  Forall (fun word =>
            Tree.parse (tree (Sample.load (Some Sample.profile_uu_b_o) None)) word ≠ [])
    (split (Sample.NFD_ascii (py "uubo  bouu"))) ∧
  ∃ segss,
    Forall2 (fun word gs =>
               concat gs = word ∧
               Forall (fun g => g ≠ [] ∧
                         Tree.terminal
                           (tree (Sample.load (Some Sample.profile_uu_b_o) None)) g) gs)
      (split (Sample.NFD_ascii (py "uubo  bouu"))) segss ∧
    Sample.graphemes (Sample.load (Some Sample.profile_uu_b_o) None) (py "uubo  bouu")
      = join (py " # ") (join [c_space] <$> segss).
Proof.
  assert (H1 : is_Some (orthography_profile
                          (Sample.load (Some Sample.profile_uu_b_o) None)))
    by (vm_compute; eauto).
  assert (H2 : Forall (fun c => c ≠ c_hash) (Sample.NFD_ascii (py "uubo  bouu")))
    by (vm_compute; repeat constructor; discriminate).
  assert (H3 : Forall (fun word =>
                 Tree.parse (tree (Sample.load (Some Sample.profile_uu_b_o) None)) word
                 ≠ []) (split (Sample.NFD_ascii (py "uubo  bouu"))))
    by (vm_compute; repeat constructor; discriminate).
  split_and!; [exact H1|exact H2|exact H3|].
  exact (graphemes_of_parsable_text Sample.NFD_ascii Sample.findall_chars
           (Sample.load (Some Sample.profile_uu_b_o) None) (py "uubo  bouu") H1 H2 H3).
Defined.

Example graphemes_uubo_bouu :
  Sample.graphemes (Sample.load (Some Sample.profile_uu_b_o) None) (py "uubo  bouu")
    = py "uu b o # b o uu".
Proof. by vm_compute. Qed.

End GraphemesFacts.
